(** * Lobby session logic of the client: [app/public/src/game/lobby-logic.ts]

    A shallow embedding of [joinLobbyRoom] and [joinExistingPreparationRoom]
    and of the callbacks they register, with the properties of the lobby
    specification stated and proved over it.

    Conventions of the embedding.
    - External calls (transport, credential store, state store, router,
      logger) are recorded, in program order, as [Event]s in the [trace] of
      the [World]; what such a call answers is given by an environment
      record ([Env], [TEnv]).
    - A [Room] object has an identity ([handle]), allocated when the
      transport creates it; whether its connection is open is part of the
      [World].
    - Callbacks are first-order data ([Listener]): one constructor per
      closure of the source, carrying the variables the closure captures.
    - The asynchronous [joinLobbyRoom] is cut at its suspension points into
      atomic segments ([connect_step]); several pending invocations are
      interleaved by a schedule. *)

From Stdlib Require Import List String ZArith Bool Lia PeanoNat.
Import ListNotations.
Open Scope string_scope.
Open Scope list_scope.

(** ** Data *)

(** [LocalStoreKeys] used by this file. *)
Inductive LocalStoreKeys : Type :=
| RECONNECTION_LOBBY
| RECONNECTION_PREPARATION.

(** The object literal [{ reconnectionToken, roomId }] put in the local store. *)
Record Credential : Type := mkCredential {
  cred_reconnectionToken : string;
  cred_roomId : string
}.

(** A [Room] object of the transport: its identity and the fields read here. *)
Record Room : Type := mkRoom {
  handle : nat;
  roomId : string;
  name : string;
  reconnectionToken : string
}.

(** What the transport answers to a successful [join], [joinById] or
    [reconnect]: the fields of the room it creates, and whether the
    connection of that room is (still) open when the caller resumes. *)
Record RoomAnswer : Type := mkRoomAnswer {
  ans_roomId : string;
  ans_name : string;
  ans_reconnectionToken : string;
  ans_isOpen : bool
}.

(** A thrown value: only [message] and [code] are ever inspected; either may
    be undefined. *)
Record Error : Type := mkError {
  err_message : option string;
  err_code : option Z
}.

Inductive Res (A : Type) : Type :=
| Ok (a : A)
| Throw (e : Error).
Arguments Ok {A} a.
Arguments Throw {A} e.

(** A room summary sent by the server; [name] is its kind. *)
Record RoomAvailable : Type := mkRoomAvailable {
  ra_roomId : string;
  ra_name : string
}.

Inductive ConnectionStatus : Type := DISCONNECTED | CONNECTING | CONNECTED.

(** Message tags of [Transfer] handled by the lobby. *)
Inductive Transfer : Type :=
| BANNED | ROOMS | REQUEST_ROOM | ADD_ROOM | REMOVE_ROOM | USER_PROFILE
| RECONNECT_PROMPT | USER | BOOSTER_CONTENT | SUGGESTIONS.

(** Schema objects of the synchronized state are references. *)
Definition Ref := nat.

(** Actions dispatched to the state store.  A tournament argument [t : Ref]
    of a change action stands for [tournament.id], read from the live object
    when the callback runs. *)
Inductive SinkAction : Type :=
| setConnectionStatus (s : ConnectionStatus)
| joinLobby (room : Room)
| setErrorAlertMessage (msg : string)
| pushMessage (m : Ref)
| removeMessage (m : Ref)
| setCcu (value : string)
| addTournament (t : Ref)
| changeTournament (t : Ref) (field value : string)
| updateTournament
| changeTournamentPlayer (t : Ref) (playerId field value : string)
| addTournamentBracket (t : Ref) (bracketId : string) (bracket : Ref)
| changeTournamentBracket (t : Ref) (bracketId field value : string)
| changeTournamentBracketPlayersId (t : Ref) (bracketId : string) (bracket : Ref)
| removeTournamentBracket (t : Ref) (bracketId : string)
| removeTournament (t : Ref)
| addRoom (room : RoomAvailable)
| removeRoom (roomId : string)
| setProfile (user : string)
| setPendingGameId (pendingGameId : string)
| setSearchedUser (user : string)
| setBoosterContent (boosterContent : string)
| setSuggestions (suggestions : string)
| resetLobby
| resetPreparation.

(** The closures registered on a lobby room, with what they capture.  The
    message handlers close over the constant [lobby] of the invocation of
    [joinLobbyRoom] that registers them; the [REQUEST_ROOM] handler is the
    one that uses it. *)
Inductive Listener : Type :=
| room_onLeave
| messages_onAdd
| messages_onRemove
| state_listen_ccu
| tournaments_onAdd
| tournaments_onRemove
| tournament_listen (t : Ref) (field : string)
| players_onAdd (t : Ref)
| players_onRemove (t : Ref)
| player_listen (t : Ref) (player : Ref) (userId field : string)
| brackets_onAdd (t : Ref)
| brackets_onRemove (t : Ref)
| bracket_listen (t : Ref) (bracket : Ref) (bracketId field : string)
| bracket_playersId_onChange (t : Ref) (bracket : Ref) (bracketId : string)
| room_onMessage (tag : Transfer) (lobby : option Room).

(** External calls, in the order the program makes them. *)
Inductive Event : Type :=
| EAuthenticateUser
| EStoreGet (k : LocalStoreKeys)
| EStoreSet (k : LocalStoreKeys) (c : Credential) (ttl : Z)
| EStoreDelete (k : LocalStoreKeys)
| EReconnect (token : string)
| EUserGetIdToken
| ECurrentUserGetIdToken
| EJoin (roomName idToken : string)
| EJoinById (roomId idToken : string)
| ELeave (h : nat) (consented : bool)
| EDispatch (a : SinkAction)
| EAttach (h : nat) (l : Listener)
| ENavigate (path : string)
| ELogInfo (code : Z)
| ELogError (e : Error)
| EAlert (message : string).

(** The part of the client's state this file reads and writes. *)
Record World : Type := mkWorld {
  lobby : option Room;                (* store.getState().network.lobby *)
  cred_lobby : option Credential;     (* localStore, key RECONNECTION_LOBBY *)
  cred_preparation : option Credential;
  open : list nat;                    (* rooms whose connection.isOpen *)
  next : nat;                         (* identity of the next Room object *)
  listeners : list (nat * Listener);  (* callbacks registered, per room *)
  trace : list Event
}.

(** JavaScript truthiness of a string: non-empty. *)
Definition truthy (s : string) : bool :=
  match s with EmptyString => false | String _ _ => true end.

Definition truthy_opt (s : option string) : bool :=
  match s with Some s => truthy s | None => false end.

Definition isOpen (h : nat) (w : World) : bool :=
  existsb (Nat.eqb h) (open w).

(** [lobby?.connection.isOpen] *)
Definition lobby_isOpen (l : option Room) (w : World) : bool :=
  match l with Some r => isOpen (handle r) w | None => false end.

(** ** A state and exception monad for the straight-line segments *)

Definition M (A : Type) : Type := World -> Res A * World.

Definition ret {A} (a : A) : M A := fun w => (Ok a, w).

Definition bind {A B} (m : M A) (k : A -> M B) : M B :=
  fun w => match m w with
           | (Ok a, w') => k a w'
           | (Throw e, w') => (Throw e, w')
           end.

Definition throw {A} (e : Error) : M A := fun w => (Throw e, w).

(** [try { body } catch (error) { handler }] *)
Definition try_catch {A} (body : M A) (handler : Error -> M A) : M A :=
  fun w => match body w with
           | (Ok a, w') => (Ok a, w')
           | (Throw e, w') => handler e w'
           end.

Notation "x <- m ;; k" := (bind m (fun x => k))
  (at level 61, m at next level, right associativity).
Notation "m ;;; k" := (bind m (fun _ => k))
  (at level 61, right associativity).

Definition when (b : bool) (m : M unit) : M unit :=
  if b then m else ret tt.

Definition emit (e : Event) : M unit :=
  fun w => (Ok tt, mkWorld (lobby w) (cred_lobby w) (cred_preparation w)
                           (open w) (next w) (listeners w) (trace w ++ [e])).

Definition get {A} (f : World -> A) : M A := fun w => (Ok (f w), w).

(** Modelled from the spec: the reducers of the state store
    ([stores/NetworkStore], [stores/LobbyStore]) are missing; of all the
    actions only [joinLobby(room)] touches what this file reads back: it
    publishes the room as [state.network.lobby], as the source says at its
    call. *)
Definition reduce (a : SinkAction) (w : World) : World :=
  match a with
  | joinLobby room =>
      mkWorld (Some room) (cred_lobby w) (cred_preparation w)
              (open w) (next w) (listeners w) (trace w)
  | _ => w
  end.

Definition dispatch (a : SinkAction) : M unit :=
  fun w => emit (EDispatch a) (reduce a w).

Definition navigate (path : string) : M unit := emit (ENavigate path).

Definition logger_error (e : Error) : M unit := emit (ELogError e).

Definition set_cred (k : LocalStoreKeys) (c : option Credential) (w : World) : World :=
  match k with
  | RECONNECTION_LOBBY =>
      mkWorld (lobby w) c (cred_preparation w) (open w) (next w) (listeners w) (trace w)
  | RECONNECTION_PREPARATION =>
      mkWorld (lobby w) (cred_lobby w) c (open w) (next w) (listeners w) (trace w)
  end.

Definition get_cred (k : LocalStoreKeys) (w : World) : option Credential :=
  match k with
  | RECONNECTION_LOBBY => cred_lobby w
  | RECONNECTION_PREPARATION => cred_preparation w
  end.

(** [localStore.get(k)]: expiry is the store's business, an expired entry is
    simply absent from the [World]. *)
Definition localStore_get (k : LocalStoreKeys) : M (option Credential) :=
  emit (EStoreGet k) ;;; get (get_cred k).

Definition localStore_set (k : LocalStoreKeys) (c : Credential) (ttl : Z) : M unit :=
  fun w => emit (EStoreSet k c ttl) (set_cred k (Some c) w).

Definition localStore_delete (k : LocalStoreKeys) : M unit :=
  fun w => emit (EStoreDelete k) (set_cred k None w).

(** The transport creates a new [Room] object for a successful answer. *)
Definition new_room (a : RoomAnswer) : M Room :=
  fun w =>
    let h := next w in
    (Ok (mkRoom h (ans_roomId a) (ans_name a) (ans_reconnectionToken a)),
     mkWorld (lobby w) (cred_lobby w) (cred_preparation w)
             (if ans_isOpen a then h :: open w else open w)
             (S h) (listeners w) (trace w)).

(** [room.leave(consented)].  The transport library is not part of this
    repository: the call is recorded, and its effect is taken to be what
    the library documents, the connection of that room is closed, whatever
    the promise it returns settles to. *)
Definition leave (r : Room) (consented : bool) : M unit :=
  fun w =>
    emit (ELeave (handle r) consented)
         (mkWorld (lobby w) (cred_lobby w) (cred_preparation w)
                  (filter (fun h => negb (Nat.eqb (handle r) h)) (open w))
                  (next w) (listeners w) (trace w)).

(** [room.connection.isOpen && room.leave(false)] *)
Definition leave_if_open (r : Room) : M unit :=
  o <- get (isOpen (handle r)) ;; when o (leave r false).

(** [lobby?.connection.isOpen && lobby.leave(false)] *)
Definition leave_if_open_opt (l : option Room) : M unit :=
  match l with
  | Some r => leave_if_open r
  | None => ret tt
  end.

(** Registration of a callback on the room of identity [h]. *)
Definition attach (h : nat) (l : Listener) : M unit :=
  fun w =>
    emit (EAttach h l)
         (mkWorld (lobby w) (cred_lobby w) (cred_preparation w) (open w) (next w)
                  (listeners w ++ [(h, l)]) (trace w)).

(** The closures registered on the room of identity [h]. *)
Definition listening (h : nat) (w : World) : list Listener :=
  map snd (filter (fun hl => Nat.eqb h (fst hl)) (listeners w)).

(** [xs.forEach(f)] *)
Fixpoint forEach {A} (xs : list A) (f : A -> M unit) : M unit :=
  match xs with
  | [] => ret tt
  | x :: xs' => f x ;;; forEach xs' f
  end.

(** ** [joinLobbyRoom] *)

(** What the collaborators answer to one invocation of [joinLobbyRoom]. *)
Record Env : Type := mkEnv {
  authenticateUser_res : Res unit;                 (* authenticateUser() *)
  reconnect_res : string -> Res RoomAnswer;        (* client.reconnect(token) *)
  getIdToken_res : Res string;                     (* user.getIdToken() *)
  join_res : string -> string -> Res RoomAnswer    (* client.join(name, { idToken }) *)
}.

(** [localStore.get(key)?.reconnectionToken] *)
Definition reconnectionToken_of (stored : Res (option Credential)) : option string :=
  match stored with
  | Ok (Some c) => Some (cred_reconnectionToken c)
  | _ => None
  end.

(** How the promise returned by [joinLobbyRoom] settles. *)
Inductive Outcome : Type :=
| Resolved (room : Room)
| Rejected (e : Error).

(** Where an invocation stands: at one of its suspension points, with the
    constants it has bound so far, or finished.  [PUnsettled] is the state
    after [authenticateUser()] rejected: the [then] callback is skipped,
    neither [resolve] nor [reject] is ever called. *)
Inductive PC : Type :=
| PStart
| PAwaitAuth (lobby0 : option Room)
| PAwaitReconnect (lobby0 : option Room) (reconnectToken : string)
| PAwaitIdToken (lobby0 : option Room)
| PAwaitJoin (lobby0 : option Room) (idToken : string)
| PSettled (o : Outcome)
| PUnsettled.

(** Lines 85-276: the lobby room [room] has been obtained.  The calls made
    here (the dispatches, [localStore.set], the registrations of the
    callbacks) are calls to collaborators that only record what they are
    given: none of them is taken to throw, [setup] always returns.  In the
    source a throw among them would be caught at line 279 and reject the
    promise, after CONNECTED was dispatched. *)
Definition setup (lobby0 : option Room) (room : Room) : M unit :=
  dispatch (setConnectionStatus CONNECTED) ;;;
  localStore_set RECONNECTION_LOBBY
    (mkCredential (reconnectionToken room) (roomId room)) (60 * 5) ;;;
  attach (handle room) room_onLeave ;;;
  attach (handle room) messages_onAdd ;;;
  attach (handle room) messages_onRemove ;;;
  attach (handle room) state_listen_ccu ;;;
  attach (handle room) tournaments_onAdd ;;;
  attach (handle room) tournaments_onRemove ;;;
  forEach [BANNED; ROOMS; REQUEST_ROOM; ADD_ROOM; REMOVE_ROOM; USER_PROFILE;
           RECONNECT_PROMPT; USER; BOOSTER_CONTENT; SUGGESTIONS]
          (fun tag => attach (handle room) (room_onMessage tag lobby0)) ;;;
  dispatch (joinLobby room).

(** The handler of [promise.catch], lines 286-292. *)
Definition top_level_handler (err : Error) : M unit :=
  logger_error err ;;;
  (match err_message err with
   | Some m => when (truthy m) (dispatch (setErrorAlertMessage m))
   | None => ret tt
   end) ;;;
  navigate "/".

(** Running a segment and settling the promise with what it produced. *)
Definition settle (m : M Room) (w : World) : PC * World :=
  match m w with
  | (Ok room, w') => (PSettled (Resolved room), w')
  | (Throw e, w') => (PSettled (Rejected e), snd (top_level_handler e w'))
  end.

Definition suspend (pc : PC) (call : Event) (w : World) : PC * World :=
  (pc, snd (emit call w)).

(** One atomic segment of an invocation: from a suspension point, given the
    answer of the awaited call, up to the next suspension point. *)
Definition connect_step (env : Env) (pc : PC) (w : World) : PC * World :=
  match pc with
  | PStart =>
      match lobby w with
      | Some l =>
          if isOpen (handle l) w then (PSettled (Resolved l), w)
          else suspend (PAwaitAuth (Some l)) EAuthenticateUser w
      | None => suspend (PAwaitAuth None) EAuthenticateUser w
      end
  | PAwaitAuth lobby0 =>
      match authenticateUser_res env with
      | Throw _ => (PUnsettled, w)
      | Ok _ =>
          let '(stored, w1) := localStore_get RECONNECTION_LOBBY w in
          match reconnectionToken_of stored with
          | Some reconnectToken =>
              if truthy reconnectToken
              then suspend (PAwaitReconnect lobby0 reconnectToken)
                           (EReconnect reconnectToken) w1
              else suspend (PAwaitIdToken lobby0) EUserGetIdToken w1
          | None => suspend (PAwaitIdToken lobby0) EUserGetIdToken w1
          end
      end
  | PAwaitReconnect lobby0 tok =>
      match reconnect_res env tok with
      | Ok a => settle (room <- new_room a ;; setup lobby0 room ;;; ret room) w
      | Throw _ =>
          suspend (PAwaitIdToken lobby0) EUserGetIdToken
                  (snd (localStore_delete RECONNECTION_LOBBY w))
      end
  | PAwaitIdToken lobby0 =>
      match getIdToken_res env with
      | Ok idToken => suspend (PAwaitJoin lobby0 idToken) (EJoin "lobby" idToken) w
      | Throw e => settle (throw e) w
      end
  | PAwaitJoin lobby0 idToken =>
      match join_res env "lobby" idToken with
      | Ok a => settle (room <- new_room a ;; setup lobby0 room ;;; ret room) w
      | Throw e => settle (throw e) w
      end
  | PSettled o => (PSettled o, w)
  | PUnsettled => (PUnsettled, w)
  end.

Fixpoint connect_steps (n : nat) (env : Env) (pc : PC) (w : World) : PC * World :=
  match n with
  | O => (pc, w)
  | S n' => let '(pc', w') := connect_step env pc w in connect_steps n' env pc' w'
  end.

Arguments connect_steps : simpl never.

(** One invocation run alone: an invocation has at most five segments. *)
Definition connect (env : Env) (w : World) : PC * World :=
  connect_steps 5 env PStart w.

Definition final (pc : PC) : bool :=
  match pc with
  | PSettled _ | PUnsettled => true
  | _ => false
  end.

(** ** Callbacks and [joinExistingPreparationRoom] *)

(** What the server stream and the transport deliver to a lobby room. *)
Inductive Message : Type :=
| MBanned (message : string)
| MRooms (rooms : list RoomAvailable)
| MRequestRoom (roomId : string)
| MAddRoom (room : RoomAvailable)
| MRemoveRoom (roomId : string)
| MUserProfile (user : string)
| MReconnectPrompt (pendingGameId : string)
| MUser (user : string)
| MBoosterContent (boosterContent : string)
| MSuggestions (suggestions : string).

Definition tag_of (m : Message) : Transfer :=
  match m with
  | MBanned _ => BANNED
  | MRooms _ => ROOMS
  | MRequestRoom _ => REQUEST_ROOM
  | MAddRoom _ => ADD_ROOM
  | MRemoveRoom _ => REMOVE_ROOM
  | MUserProfile _ => USER_PROFILE
  | MReconnectPrompt _ => RECONNECT_PROMPT
  | MUser _ => USER
  | MBoosterContent _ => BOOSTER_CONTENT
  | MSuggestions _ => SUGGESTIONS
  end.

Inductive ServerEvent : Type :=
| SLeave (code : Z)
| SMessagesAdd (m : Ref)
| SMessagesRemove (m : Ref)
| SCcu (value : string)
| STournamentsAdd (t : Ref)
| STournamentsRemove (t : Ref)
| STournamentField (t : Ref) (field value : string)
| SPlayersAdd (t : Ref) (player : Ref) (userId : string)
| SPlayersRemove (t : Ref) (player : Ref) (userId : string)
| SPlayerField (player : Ref) (field value : string)
| SBracketsAdd (t : Ref) (bracket : Ref) (bracketId : string)
| SBracketsRemove (t : Ref) (bracket : Ref) (bracketId : string)
| SBracketField (bracket : Ref) (field value : string)
| SBracketPlayersId (bracket : Ref)
| SMessage (m : Message).

(** What the collaborators answer to one run of
    [joinExistingPreparationRoom], and the page the user is on. *)
Record TEnv : Type := mkTEnv {
  location_pathname : string;                        (* window.location.pathname *)
  currentUser : option (Res string);                 (* firebase.auth().currentUser?.getIdToken() *)
  joinById_res : string -> string -> Res RoomAnswer  (* client.joinById(roomId, { idToken }) *)
}.

Definition Transfer_eqb (a b : Transfer) : bool :=
  match a, b with
  | BANNED, BANNED | ROOMS, ROOMS | REQUEST_ROOM, REQUEST_ROOM
  | ADD_ROOM, ADD_ROOM | REMOVE_ROOM, REMOVE_ROOM | USER_PROFILE, USER_PROFILE
  | RECONNECT_PROMPT, RECONNECT_PROMPT | USER, USER
  | BOOSTER_CONTENT, BOOSTER_CONTENT | SUGGESTIONS, SUGGESTIONS => true
  | _, _ => false
  end.

(** The error thrown at line 313. *)
Definition UnexpectedRoomKind (joined : string) : Error :=
  mkError (Some ("Expected to join a preparation room but joined " ++ joined ++ " instead")%string)
          None.

(** [types/enum/CloseCodes] and the translation function are not part of
    this file: the four close codes compared at [onLeave], the table
    [CloseCodesMessages] and [t] of i18next are parameters of the model. *)
Record Externals : Type := mkExternals {
  USER_INACTIVE : Z;
  USER_BANNED : Z;
  USER_DELETED : Z;
  USER_NOT_AUTHENTICATED : Z;
  CloseCodesMessages : Z -> option string;
  t : string -> string
}.

Section Lobby.

Variable X : Externals.

(** The callback of [room.onLeave], lines 96-111. *)
Definition shouldGoToLoginPage (pathname : string) (code : Z) : bool :=
  String.eqb pathname "/lobby" &&
  (Z.eqb code (USER_INACTIVE X) || Z.eqb code (USER_BANNED X) ||
   Z.eqb code (USER_DELETED X) || Z.eqb code (USER_NOT_AUTHENTICATED X)).

Definition onLeave (pathname : string) (code : Z) : M unit :=
  emit (ELogInfo code) ;;;
  when (shouldGoToLoginPage pathname code)
    ((match CloseCodesMessages X code with
      | Some errorMessage =>
          when (truthy errorMessage)
               (dispatch (setErrorAlertMessage (t X ("errors." ++ errorMessage)%string)))
      | None => ret tt
      end) ;;;
     navigate "/").

(** The [try] block of [joinExistingPreparationRoom], lines 305-331. *)
Definition transition_body (te : TEnv) (roomId_ : string) (lobby : option Room) : M unit :=
  token <- (match currentUser te with
            | Some r => emit ECurrentUserGetIdToken ;;;
                        (match r with Ok tok => ret (Some tok) | Throw e => throw e end)
            | None => ret None
            end) ;;
  match token with
  | Some token =>
      if truthy token then
        dispatch resetPreparation ;;;
        emit (EJoinById roomId_ token) ;;;
        room <- (match joinById_res te roomId_ token with
                 | Ok a => new_room a
                 | Throw e => throw e
                 end) ;;
        (if negb (String.eqb (name room) "preparation")
         then leave_if_open room ;;; throw (UnexpectedRoomKind (name room))
         else ret tt) ;;;
        localStore_set RECONNECTION_PREPARATION
          (mkCredential (reconnectionToken room) (roomId room)) 30 ;;;
        (* Promise.allSettled: both elements are evaluated, no rejection escapes *)
        leave_if_open_opt lobby ;;;
        leave_if_open room ;;;
        dispatch resetLobby ;;;
        navigate "/preparation"
      else ret tt
  | None => ret tt
  end.

(** The [catch] block, lines 332-339. *)
Definition transition_catch (error : Error) : M unit :=
  match err_code error with
  | Some code =>
      if negb (Z.eqb code 0) then
        match CloseCodesMessages X code with
        | Some errorMessage =>
            dispatch (setErrorAlertMessage (t X ("errors." ++ errorMessage)%string))
        | None => logger_error error
        end
      else logger_error error
  | None => logger_error error
  end.

Definition joinExistingPreparationRoom
    (te : TEnv) (roomId_ : string) (lobby : option Room) : M unit :=
  try_catch (transition_body te roomId_ lobby) transition_catch.

(** The callback of [$state.tournaments.onAdd], lines 124-216, run for a
    tournament added on the room of identity [h]. *)
Definition on_tournament_add (h : nat) (tournament : Ref) : M unit :=
  dispatch (addTournament tournament) ;;;
  forEach ["id"; "name"; "startDate"]
          (fun field => attach h (tournament_listen tournament field)) ;;;
  attach h (players_onAdd tournament) ;;;
  attach h (players_onRemove tournament) ;;;
  attach h (brackets_onAdd tournament) ;;;
  attach h (brackets_onRemove tournament).

(** The callback of [$tournament.players.onAdd], lines 145-163. *)
Definition on_player_add (h : nat) (tournament player : Ref) (userId : string) : M unit :=
  dispatch updateTournament ;;;
  forEach ["eliminated"]
          (fun field => attach h (player_listen tournament player userId field)).

(** The callback of [$tournament.brackets.onAdd], lines 169-206. *)
Definition on_bracket_add (h : nat) (tournament bracket : Ref) (bracketId : string) : M unit :=
  dispatch (addTournamentBracket tournament bracketId bracket) ;;;
  forEach ["name"; "finished"]
          (fun field => attach h (bracket_listen tournament bracket bracketId field)) ;;;
  attach h (bracket_playersId_onChange tournament bracket bracketId).

(** The handlers of [room.onMessage], lines 222-274; [lobby] is the constant
    the handler closed over. *)
Definition on_message (te : TEnv) (lobby : option Room) (m : Message) : M unit :=
  match m with
  | MBanned message => emit (EAlert message)
  | MRooms rooms => forEach rooms (fun room => dispatch (addRoom room))
  | MRequestRoom roomId_ => joinExistingPreparationRoom te roomId_ lobby
  | MAddRoom room =>
      when (String.eqb (ra_name room) "preparation" || String.eqb (ra_name room) "game")
           (dispatch (addRoom room))
  | MRemoveRoom roomId_ => dispatch (removeRoom roomId_)
  | MUserProfile user => dispatch (setProfile user)
  | MReconnectPrompt pendingGameId => dispatch (setPendingGameId pendingGameId)
  | MUser user => dispatch (setSearchedUser user)
  | MBoosterContent boosterContent => dispatch (setBoosterContent boosterContent)
  | MSuggestions suggestions => dispatch (setSuggestions suggestions)
  end.

(** What a registered closure does when the transport calls it with an
    event; a closure is only called with the events of what it listens to. *)
Definition callback (te : TEnv) (h : nat) (l : Listener) (ev : ServerEvent) : M unit :=
  match l, ev with
  | room_onLeave, SLeave code => onLeave (location_pathname te) code
  | messages_onAdd, SMessagesAdd m => dispatch (pushMessage m)
  | messages_onRemove, SMessagesRemove m => dispatch (removeMessage m)
  | state_listen_ccu, SCcu value => dispatch (setCcu value)
  | tournaments_onAdd, STournamentsAdd tournament => on_tournament_add h tournament
  | tournaments_onRemove, STournamentsRemove tournament =>
      dispatch (removeTournament tournament)
  | tournament_listen tournament field, STournamentField t' field' value =>
      when (Nat.eqb tournament t' && String.eqb field field')
           (dispatch (changeTournament tournament field value))
  | players_onAdd tournament, SPlayersAdd t' player userId =>
      when (Nat.eqb tournament t') (on_player_add h tournament player userId)
  | players_onRemove tournament, SPlayersRemove t' _ _ =>
      when (Nat.eqb tournament t') (dispatch updateTournament)
  | player_listen tournament player userId field, SPlayerField p' field' value =>
      when (Nat.eqb player p' && String.eqb field field')
           (dispatch (changeTournamentPlayer tournament userId field value))
  | brackets_onAdd tournament, SBracketsAdd t' bracket bracketId =>
      when (Nat.eqb tournament t') (on_bracket_add h tournament bracket bracketId)
  | brackets_onRemove tournament, SBracketsRemove t' _ bracketId =>
      when (Nat.eqb tournament t')
           (dispatch (removeTournamentBracket tournament bracketId))
  | bracket_listen tournament bracket bracketId field, SBracketField b' field' value =>
      when (Nat.eqb bracket b' && String.eqb field field')
           (dispatch (changeTournamentBracket tournament bracketId field value))
  | bracket_playersId_onChange tournament bracket bracketId, SBracketPlayersId b' =>
      when (Nat.eqb bracket b')
           (dispatch (changeTournamentBracketPlayersId tournament bracketId bracket))
  | room_onMessage tag lobby0, SMessage m =>
      when (Transfer_eqb tag (tag_of m)) (on_message te lobby0 m)
  | _, _ => ret tt
  end.

(** The transport delivers an event to the room of identity [h]: the
    closures registered on that room so far are called, in registration
    order. *)
Definition deliver (te : TEnv) (h : nat) (ev : ServerEvent) : M unit :=
  fun w => forEach (listening h w) (fun l => callback te h l ev) w.

End Lobby.

(** ** Two pending invocations of [joinLobbyRoom] *)

(** Two invocations share the [World]; a schedule says whose segment runs
    next.  Segments are atomic: the event loop runs one callback at a time. *)
Inductive Turn : Type := First | Second.

Record Sys : Type := mkSys {
  first : PC;
  second : PC;
  world : World
}.

Definition sys_step (e1 e2 : Env) (who : Turn) (s : Sys) : Sys :=
  match who with
  | First =>
      let '(pc, w) := connect_step e1 (first s) (world s) in mkSys pc (second s) w
  | Second =>
      let '(pc, w) := connect_step e2 (second s) (world s) in mkSys (first s) pc w
  end.

Fixpoint run (e1 e2 : Env) (sched : list Turn) (s : Sys) : Sys :=
  match sched with
  | [] => s
  | who :: sched' => run e1 e2 sched' (sys_step e1 e2 who s)
  end.

(** ** Observations on traces and worlds *)

Definition count {A} (p : A -> bool) (l : list A) : nat := List.length (filter p l).

Definition is_join (e : Event) : bool :=
  match e with EJoin _ _ => true | _ => false end.

Definition is_reconnect (e : Event) : bool :=
  match e with EReconnect _ => true | _ => false end.

Definition is_leave (e : Event) : bool :=
  match e with ELeave _ _ => true | _ => false end.

(** A network connection attempt of [joinLobbyRoom]: a reconnect or a join. *)
Definition connection_attempt (e : Event) : bool := is_join e || is_reconnect e.

(** The events added to the trace between [w] and a later [w']. *)
Definition new_events (w w' : World) : list Event :=
  skipn (List.length (trace w)) (trace w').

(** The closures [setup] registers on the lobby room, in order. *)
Definition setup_listeners (lobby0 : option Room) : list Listener :=
  [room_onLeave; messages_onAdd; messages_onRemove; state_listen_ccu;
   tournaments_onAdd; tournaments_onRemove] ++
  map (fun tag => room_onMessage tag lobby0)
      [BANNED; ROOMS; REQUEST_ROOM; ADD_ROOM; REMOVE_ROOM; USER_PROFILE;
       RECONNECT_PROMPT; USER; BOOSTER_CONTENT; SUGGESTIONS].


(** How many connection attempts an invocation standing at [pc] has made
    at least, when it did not return the published handle at once. *)
Definition attempted (pc : PC) : nat :=
  match pc with
  | PAwaitReconnect _ _ | PAwaitJoin _ _ | PSettled (Resolved _) => 1
  | _ => 0
  end.

Definition started (pc : PC) : bool :=
  match pc with PStart => false | _ => true end.

(** The number of segments an invocation standing at [pc] has left at most. *)
Definition remaining (pc : PC) : nat :=
  match pc with
  | PStart => 5
  | PAwaitAuth _ => 4
  | PAwaitReconnect _ _ => 3
  | PAwaitIdToken _ => 2
  | PAwaitJoin _ _ => 1
  | PSettled _ | PUnsettled => 0
  end.

(** The leave events the guarded leave of a room produces in [w]. *)
Definition leave_events (r : option Room) (w : World) : list Event :=
  match r with
  | Some r => if isOpen (handle r) w then [ELeave (handle r) false] else []
  | None => []
  end.

(** What the top-level handler of [joinLobbyRoom] does with an error. *)
Definition surfaced (e : Error) : list Event :=
  ELogError e ::
  (match err_message e with
   | Some m => if truthy m then [EDispatch (setErrorAlertMessage m)] else []
   | None => []
   end) ++ [ENavigate "/"].

(** The world once the top-level handler has run on [e]. *)
Definition rejected (e : Error) (w : World) : World :=
  mkWorld (lobby w) (cred_lobby w) (cred_preparation w) (open w) (next w)
          (listeners w) (trace w ++ surfaced e).

(** The lobby room created for the answer [a] in the world [w], and the
    world once [setup] has run on it. *)
Definition lobby_room (a : RoomAnswer) (w : World) : Room :=
  mkRoom (next w) (ans_roomId a) (ans_name a) (ans_reconnectionToken a).

Definition connected (lobby0 : option Room) (a : RoomAnswer) (w : World) : World :=
  mkWorld (Some (lobby_room a w))
          (Some (mkCredential (ans_reconnectionToken a) (ans_roomId a)))
          (cred_preparation w)
          (if ans_isOpen a then next w :: open w else open w)
          (S (next w))
          (listeners w ++ map (pair (next w)) (setup_listeners lobby0))
          (trace w ++
           [EDispatch (setConnectionStatus CONNECTED);
            EStoreSet RECONNECTION_LOBBY
              (mkCredential (ans_reconnectionToken a) (ans_roomId a)) 300] ++
           map (EAttach (next w)) (setup_listeners lobby0) ++
           [EDispatch (joinLobby (lobby_room a w))]).

(** The close codes that say the identity itself is no longer valid. *)
Definition identity_invalid (X : Externals) (code : Z) : Prop :=
  code = USER_INACTIVE X \/ code = USER_BANNED X \/
  code = USER_DELETED X \/ code = USER_NOT_AUTHENTICATED X.

(** ** The specification's sentences that the code does not satisfy *)

(** The leaving step of a transition that passed validation leaves only
    the lobby, and the joined preparation room stays open. *)
Definition leaves_only_the_lobby (X : Externals) : Prop :=
  forall te roomId_ lobby0 w token a,
    currentUser te = Some (Ok token) ->
    truthy token = true ->
    joinById_res te roomId_ token = Ok a ->
    ans_name a = "preparation" ->
    let w' := snd (joinExistingPreparationRoom X te roomId_ lobby0 w) in
    (forall h c, In (ELeave h c) (new_events w w') ->
                 option_map handle lobby0 = Some h) /\
    (ans_isOpen a = true -> isOpen (next w) w' = true).

(** Two invocations, the second made while the first is pending, join the
    lobby once in total. *)
Definition one_join_for_two_pending_connects : Prop :=
  forall e1 e2 w k sched,
    final (first (run e1 e2 (repeat First (S k)) (mkSys PStart PStart w))) = false ->
    let s := run e1 e2 (repeat First (S k) ++ Second :: sched)
                 (mkSys PStart PStart w) in
    final (first s) = true -> final (second s) = true ->
    count is_join (new_events w (world s)) = 1.

(** ** Sample inputs *)

Definition sample_externals : Externals :=
  mkExternals 4001 4002 4003 4004
    (fun code =>
       if Z.eqb code 4001 then Some "USER_INACTIVE"
       else if Z.eqb code 4002 then Some "USER_BANNED"
       else if Z.eqb code 4003 then Some "USER_DELETED"
       else if Z.eqb code 4004 then Some "USER_NOT_AUTHENTICATED"
       else None)
    (fun key => key).

Definition empty_world : World := mkWorld None None None [] 0 [] [].

Definition lobby_answer : RoomAnswer := mkRoomAnswer "lobby1" "lobby" "abc" true.

Definition prep_answer : RoomAnswer := mkRoomAnswer "prep42" "preparation" "xyz" true.

Definition game_answer : RoomAnswer := mkRoomAnswer "game7" "game" "uvw" true.

Definition network_down : Error := mkError (Some "network down") None.

Definition no_user : Error := mkError (Some "no authenticated user") None.

(** Everything answers: authentication, identity token, join. *)
Definition env_ok : Env :=
  mkEnv (Ok tt) (fun _ => Throw network_down) (Ok "id-token")
        (fun _ _ => Ok lobby_answer).

(** [authenticateUser()] rejects. *)
Definition env_no_user : Env :=
  mkEnv (Throw no_user) (fun _ => Throw network_down) (Ok "id-token")
        (fun _ _ => Ok lobby_answer).

Definition tenv_prep : TEnv :=
  mkTEnv "/lobby" (Some (Ok "id-token")) (fun _ _ => Ok prep_answer).

Definition tenv_game : TEnv :=
  mkTEnv "/lobby" (Some (Ok "id-token")) (fun _ _ => Ok game_answer).

(** A world in which a lobby credential is stored and no lobby is open. *)
Definition world_with_credential : World :=
  mkWorld None (Some (mkCredential "abc" "lobby1")) None [] 0 [] [].

Definition lobby1 : Room := mkRoom 0 "lobby1" "lobby" "abc".

Definition lobby2 : Room := mkRoom 1 "lobby1" "lobby" "abc".

(** A world in which an open lobby is published. *)
Definition world_connected : World :=
  mkWorld (Some lobby1) (Some (mkCredential "abc" "lobby1")) None [0] 1 [] [].

(** A world in which a lobby is published whose connection has closed. *)
Definition world_stale : World :=
  mkWorld (Some lobby1) (Some (mkCredential "abc" "lobby1")) None [] 1 [] [].

(** The world after [joinLobbyRoom] has joined afresh from [empty_world]. *)
Definition world_joined : World := snd (connect env_ok empty_world).

(** The world after [joinLobbyRoom] has joined again from [world_stale]. *)
Definition world_rejoined : World := snd (connect env_ok world_stale).

Definition alternate : list Turn :=
  [First; Second; First; Second; First; Second; First; Second].

(** ** Further observations and sample inputs *)

(** The world [w] once the calls [evs] have been made and nothing else. *)
Definition after_calls (evs : list Event) (w : World) : World :=
  mkWorld (lobby w) (cred_lobby w) (cred_preparation w) (open w) (next w)
          (listeners w) (trace w ++ evs).

(** Nothing but the trace differs between [w] and [w']. *)
Definition same_but_trace (w w' : World) : Prop :=
  lobby w' = lobby w /\ cred_lobby w' = cred_lobby w /\
  cred_preparation w' = cred_preparation w /\ open w' = open w /\
  next w' = next w /\ listeners w' = listeners w.

(** The events that only inform the state store or the user. *)
Definition is_dispatch_or_alert (e : Event) : bool :=
  match e with EDispatch _ | EAlert _ => true | _ => false end.

(** The world grows by calls that only inform the state store or the user. *)
Definition informs (w w' : World) : Prop :=
  same_but_trace w w' /\
  exists evs, trace w' = trace w ++ evs /\ forallb is_dispatch_or_alert evs = true.

(** The callbacks registered on the room [h] between [w] and [w']: none is
    taken away, and the new ones are on [h]. *)
Definition registers_on (h : nat) (w w' : World) : Prop :=
  exists added, listeners w' = listeners w ++ map (pair h) added.

(** The closures the callback of [tournaments.onAdd] registers, in order. *)
Definition tournament_listeners (t : Ref) : list Listener :=
  [tournament_listen t "id"; tournament_listen t "name";
   tournament_listen t "startDate"; players_onAdd t; players_onRemove t;
   brackets_onAdd t; brackets_onRemove t].

(** What holds of the rooms two invocations standing at [p] and [q] have
    resolved with: they are older than the next room, one of them is the
    published lobby, and they are two rooms. *)
Definition rooms_of (p q : PC) (w : World) : Prop :=
  (forall r, p = PSettled (Resolved r) ->
     handle r < next w /\
     (lobby w = Some r \/
      exists r', q = PSettled (Resolved r') /\ lobby w = Some r')) /\
  (forall r, q = PSettled (Resolved r) ->
     handle r < next w /\
     (lobby w = Some r \/
      exists r', p = PSettled (Resolved r') /\ lobby w = Some r')) /\
  (forall r r', p = PSettled (Resolved r) -> q = PSettled (Resolved r') ->
     handle r <> handle r').

(** The stored lobby token, when there is one and it is not empty. *)
Definition usable_token (w : World) : option string :=
  match cred_lobby w with
  | Some c => if truthy (cred_reconnectionToken c)
              then Some (cred_reconnectionToken c) else None
  | None => None
  end.

(** The reconnection succeeds. *)
Definition env_reconnects : Env :=
  mkEnv (Ok tt) (fun _ => Ok lobby_answer) (Ok "id-token")
        (fun _ _ => Ok lobby_answer).

(** The identity token is obtained, the join is refused. *)
Definition env_join_fails : Env :=
  mkEnv (Ok tt) (fun _ => Throw network_down) (Ok "id-token")
        (fun _ _ => Throw network_down).

(** A world in which the stored lobby credential has an empty token. *)
Definition world_empty_token : World :=
  mkWorld None (Some (mkCredential "" "lobby1")) None [] 0 [] [].

Definition banned : Error := mkError (Some "banned") (Some 4002%Z).

(** No user is signed in. *)
Definition tenv_no_user : TEnv :=
  mkTEnv "/lobby" None (fun _ _ => Ok prep_answer).

(** The join by id is refused with a close code of the table. *)
Definition tenv_banned : TEnv :=
  mkTEnv "/lobby" (Some (Ok "id-token")) (fun _ _ => Throw banned).

(** The join by id fails with an error that carries no code. *)
Definition tenv_unreachable : TEnv :=
  mkTEnv "/lobby" (Some (Ok "id-token")) (fun _ _ => Throw network_down).

(** ** The history of a lobby room *)

(** What happens to the client between two moments: the transport delivers
    an event to a room ([SDeliver]), or an invocation of [joinLobbyRoom]
    that stands at [pc] runs its next segment ([SConnect]). *)
Inductive Step : Type :=
| SDeliver (te : TEnv) (h : nat) (ev : ServerEvent)
| SConnect (env : Env) (pc : PC).

Definition step (X : Externals) (s : Step) (w : World) : World :=
  match s with
  | SDeliver te h ev => snd (deliver X te h ev w)
  | SConnect env pc => snd (connect_step env pc w)
  end.

Definition steps (X : Externals) (ss : list Step) (w : World) : World :=
  fold_left (fun w s => step X s w) ss w.

(** The step adds the tournament [t] on the room [h]. *)
Definition is_tournament_add (h : nat) (t : Ref) (s : Step) : bool :=
  match s with
  | SDeliver _ h' (STournamentsAdd t') => Nat.eqb h' h && Nat.eqb t' t
  | _ => false
  end.

(** How many times the tournament [t] was added on the room [h] in [ss]. *)
Definition adds (h : nat) (t : Ref) (ss : list Step) : nat :=
  count (is_tournament_add h t) ss.

(** The step adds the player object [player], to any tournament of the
    room [h]. *)
Definition is_player_add (h : nat) (player : Ref) (s : Step) : bool :=
  match s with
  | SDeliver _ h' (SPlayersAdd _ p' _) => Nat.eqb h' h && Nat.eqb p' player
  | _ => false
  end.

(** The step adds the bracket object [bracket], to any tournament of the
    room [h]. *)
Definition is_bracket_add (h : nat) (bracket : Ref) (s : Step) : bool :=
  match s with
  | SDeliver _ h' (SBracketsAdd _ b' _) => Nat.eqb h' h && Nat.eqb b' bracket
  | _ => false
  end.

(** Closures are compared by what they are and what they captured. *)
Definition Listener_eq_dec (a b : Listener) : {a = b} + {a <> b}.
Proof. repeat decide equality. Defined.

(** [l] is the closure [x]. *)
Definition same (x l : Listener) : bool :=
  if Listener_eq_dec x l then true else false.


(** [l] listens to the field [field] of the player object [player]. *)
Definition listens_to_player (player : Ref) (field : string) (l : Listener) : bool :=
  match l with
  | player_listen _ p _ f => Nat.eqb p player && String.eqb f field
  | _ => false
  end.

(** [l] listens to the bracket object [bracket]. *)
Definition listens_to_bracket (bracket : Ref) (l : Listener) : bool :=
  match l with
  | bracket_listen _ b _ _ | bracket_playersId_onChange _ b _ => Nat.eqb b bracket
  | _ => false
  end.

(** The events of the synchronized state: all but the close of the
    connection and the messages. *)
Definition is_structural (ev : ServerEvent) : bool :=
  match ev with SLeave _ | SMessage _ => false | _ => true end.

(** The closures [callback] registers when the closure [l] is called with
    [ev], in order, read off [on_tournament_add], [on_player_add] and
    [on_bracket_add]: only these three register any. *)
Definition registered (l : Listener) (ev : ServerEvent) : list Listener :=
  match l, ev with
  | tournaments_onAdd, STournamentsAdd t => tournament_listeners t
  | players_onAdd t, SPlayersAdd t' player userId =>
      if Nat.eqb t t' then [player_listen t player userId "eliminated"] else []
  | brackets_onAdd t, SBracketsAdd t' bracket bracketId =>
      if Nat.eqb t t'
      then [bracket_listen t bracket bracketId "name";
            bracket_listen t bracket bracketId "finished";
            bracket_playersId_onChange t bracket bracketId]
      else []
  | _, _ => []
  end.

(** The calls [callback] makes when the closure [l], registered on the
    room [h], is called with an event of the synchronized state, in order:
    these callbacks read nothing of the [World]. *)
Definition reaction (h : nat) (l : Listener) (ev : ServerEvent) : list Event :=
  match l, ev with
  | messages_onAdd, SMessagesAdd m => [EDispatch (pushMessage m)]
  | messages_onRemove, SMessagesRemove m => [EDispatch (removeMessage m)]
  | state_listen_ccu, SCcu value => [EDispatch (setCcu value)]
  | tournaments_onAdd, STournamentsAdd t =>
      EDispatch (addTournament t) :: map (EAttach h) (tournament_listeners t)
  | tournaments_onRemove, STournamentsRemove t => [EDispatch (removeTournament t)]
  | tournament_listen t field, STournamentField t' field' value =>
      if Nat.eqb t t' && String.eqb field field'
      then [EDispatch (changeTournament t field value)] else []
  | players_onAdd t, SPlayersAdd t' player userId =>
      if Nat.eqb t t'
      then [EDispatch updateTournament;
            EAttach h (player_listen t player userId "eliminated")]
      else []
  | players_onRemove t, SPlayersRemove t' _ _ =>
      if Nat.eqb t t' then [EDispatch updateTournament] else []
  | player_listen t player userId field, SPlayerField p' field' value =>
      if Nat.eqb player p' && String.eqb field field'
      then [EDispatch (changeTournamentPlayer t userId field value)] else []
  | brackets_onAdd t, SBracketsAdd t' bracket bracketId =>
      if Nat.eqb t t'
      then [EDispatch (addTournamentBracket t bracketId bracket);
            EAttach h (bracket_listen t bracket bracketId "name");
            EAttach h (bracket_listen t bracket bracketId "finished");
            EAttach h (bracket_playersId_onChange t bracket bracketId)]
      else []
  | brackets_onRemove t, SBracketsRemove t' _ bracketId =>
      if Nat.eqb t t' then [EDispatch (removeTournamentBracket t bracketId)] else []
  | bracket_listen t bracket bracketId field, SBracketField b' field' value =>
      if Nat.eqb bracket b' && String.eqb field field'
      then [EDispatch (changeTournamentBracket t bracketId field value)] else []
  | bracket_playersId_onChange t bracket bracketId, SBracketPlayersId b' =>
      if Nat.eqb bracket b'
      then [EDispatch (changeTournamentBracketPlayersId t bracketId bracket)] else []
  | _, _ => []
  end.

(** The world [w] once the closures [regs] have been registered on the
    room [h] and the calls [evs] made, and nothing else. *)
Definition grow (h : nat) (regs : list Listener) (evs : list Event) (w : World) : World :=
  mkWorld (lobby w) (cred_lobby w) (cred_preparation w) (open w) (next w)
          (listeners w ++ map (pair h) regs) (trace w ++ evs).

(** The closures a step registers on the room [h], whose closures so far
    are [ls]. *)
Definition added (h : nat) (s : Step) (ls : list Listener) : list Listener :=
  match s with
  | SDeliver _ h' ev =>
      if Nat.eqb h h' then flat_map (fun l => registered l ev) ls else []
  | SConnect _ _ => []
  end.

(** * Properties *)

(** ** Tactics *)

Ltac munfold :=
  unfold joinExistingPreparationRoom, transition_body, transition_catch, try_catch,
    localStore_set, localStore_delete, localStore_get, leave_if_open_opt, leave_if_open,
    leave, new_room, navigate, logger_error, dispatch, attach, when, get, bind,
    ret, throw, emit, set_cred, reduce in *.

Ltac break_match :=
  repeat match goal with
         | |- context [match ?x with _ => _ end] =>
             lazymatch x with
             | context [match _ with _ => _ end] => fail
             | _ => destruct x eqn:?; simpl
             end
         end.


Ltac in_events H :=
  simpl in H;
  repeat (destruct H as [H|H]; [try discriminate; inversion H; subst; auto|]);
  try contradiction.

Ltac mcbv :=
  cbv beta iota zeta delta
    [setup forEach attach dispatch reduce emit navigate logger_error
     localStore_set localStore_delete set_cred new_room bind ret throw when get
     settle suspend top_level_handler fst snd
     lobby cred_lobby cred_preparation open next listeners trace handle
     roomId name reconnectionToken].

Ltac run_callbacks :=
  cbv beta iota zeta delta
    [deliver forEach callback when on_tournament_add on_player_add on_bracket_add
     on_message Transfer_eqb tag_of attach dispatch reduce emit bind ret fst snd
     lobby cred_lobby cred_preparation open next listeners trace].

Ltac run_handlers :=
  cbv beta iota zeta delta
    [forEach callback when Transfer_eqb tag_of bind ret fst snd].

Ltac same_simpl :=
  unfold same;
  repeat match goal with
         | |- context [Listener_eq_dec ?a ?b] =>
             destruct (Listener_eq_dec a b); try congruence
         end.

Ltac solve_registered :=
  let l := fresh "l" in
  let ev := fresh "ev" in
  let Hl := fresh "Hl" in
  intros l ev Hl; destruct l, ev; try reflexivity;
  try (vm_compute in Hl; discriminate Hl);
  simpl; destruct (Nat.eqb _ _); unfold count; simpl; same_simpl; reflexivity.

Ltac solve_reaction :=
  let l := fresh "l" in
  intros l; destruct l; try reflexivity; cbv [reaction];
  repeat match goal with
         | |- context [Nat.eqb ?a ?b] => destruct (Nat.eqb_spec a b)
         | |- context [String.eqb ?a ?b] => destruct (String.eqb_spec a b)
         end;
  subst; cbn [andb]; same_simpl; reflexivity.

Ltac solve_tournament_listeners :=
  let t' := fresh "t'" in
  intros t'; unfold tournament_listeners, count; simpl;
  match goal with
  | |- context [Nat.eqb t' ?t] => destruct (Nat.eqb_spec t' t) as [->|]
  end; same_simpl; reflexivity.

(** ** Lists and traces *)

Lemma new_events_app (w w' : World) (evs : list Event) :
  trace w' = trace w ++ evs -> new_events w w' = evs.
Proof.
  intros H. unfold new_events. rewrite H.
  rewrite skipn_app, skipn_all, Nat.sub_diag. reflexivity.
Qed.

Lemma existsb_fresh (h n : nat) (l : list nat) :
  Forall (fun x => x < n) l -> n <= h -> existsb (Nat.eqb h) l = false.
Proof.
  intros Hall Hle.
  induction Hall as [|x l Hx _ IH]; simpl; [reflexivity|].
  rewrite IH, orb_false_r. apply Nat.eqb_neq. lia.
Qed.

Lemma Forall_filter_lt (n : nat) (p : nat -> bool) (l : list nat) :
  Forall (fun x => x < n) l -> Forall (fun x => x < n) (filter p l).
Proof.
  intros H. apply Forall_forall. intros x Hx.
  apply filter_In in Hx. destruct Hx as [Hx _].
  revert x Hx. apply Forall_forall. exact H.
Qed.

Lemma existsb_filter_neq (h r : nat) (l : list nat) :
  existsb (Nat.eqb h) (filter (fun x => negb (Nat.eqb r x)) l) =
  negb (Nat.eqb r h) && existsb (Nat.eqb h) l.
Proof.
  induction l as [|x l IH]; simpl; [now rewrite andb_false_r|].
  destruct (Nat.eqb_spec r x) as [->|Hrx]; simpl; rewrite IH;
    destruct (Nat.eqb_spec h x) as [->|Hhx]; simpl;
    rewrite ?Nat.eqb_refl; simpl; try reflexivity.
  destruct (Nat.eqb_spec r x); [contradiction|reflexivity].
Qed.

Lemma count_app {A} (p : A -> bool) (l1 l2 : list A) :
  count p (l1 ++ l2) = count p l1 + count p l2.
Proof. unfold count. rewrite filter_app, length_app. reflexivity. Qed.


Lemma filter_leave_events l w : filter is_leave (leave_events l w) = leave_events l w.
Proof.
  unfold leave_events. destruct l as [r|]; [destruct (isOpen (handle r) w)|];
    reflexivity.
Qed.

(** ** The model on the sample inputs *)

Example fresh_join_calls :
  firstn 4 (trace world_joined) =
  [EAuthenticateUser; EStoreGet RECONNECTION_LOBBY; EUserGetIdToken;
   EJoin "lobby" "id-token"].
Proof. reflexivity. Qed.

Example fresh_join_publishes : lobby world_joined = Some lobby1.
Proof. reflexivity. Qed.

Example fresh_join_listeners : listening 0 world_joined = setup_listeners None.
Proof. reflexivity. Qed.

Example stored_token_is_tried_first :
  firstn 4 (trace (snd (connect env_ok world_with_credential))) =
  [EAuthenticateUser; EStoreGet RECONNECTION_LOBBY; EReconnect "abc";
   EStoreDelete RECONNECTION_LOBBY].
Proof. reflexivity. Qed.

Example transition_to_preparation :
  trace (snd (joinExistingPreparationRoom sample_externals tenv_prep "prep42" None
                empty_world)) =
  [ECurrentUserGetIdToken; EDispatch resetPreparation; EJoinById "prep42" "id-token";
   EStoreSet RECONNECTION_PREPARATION (mkCredential "xyz" "prep42") 30;
   ELeave 0 false; EDispatch resetLobby; ENavigate "/preparation"].
Proof. reflexivity. Qed.

Example banned_on_lobby :
  trace (snd (onLeave sample_externals "/lobby" 4002 empty_world)) =
  [ELogInfo 4002; EDispatch (setErrorAlertMessage "errors.USER_BANNED"); ENavigate "/"].
Proof. reflexivity. Qed.

Example banned_elsewhere :
  trace (snd (onLeave sample_externals "/game" 4002 empty_world)) = [ELogInfo 4002].
Proof. reflexivity. Qed.

Example add_room_forwards_games_only :
  trace (snd (on_message sample_externals tenv_prep None
                (MAddRoom (mkRoomAvailable "r1" "lobby")) empty_world)) = [] /\
  trace (snd (on_message sample_externals tenv_prep None
                (MAddRoom (mkRoomAvailable "r2" "game")) empty_world)) =
  [EDispatch (addRoom (mkRoomAvailable "r2" "game"))].
Proof. split; reflexivity. Qed.

(** ** [joinExistingPreparationRoom] *)

Section TransitionProperties.

Variable X : Externals.

Lemma transition_valid_trace te roomId_ lobby0 w token a :
  currentUser te = Some (Ok token) ->
  truthy token = true ->
  joinById_res te roomId_ token = Ok a ->
  ans_name a = "preparation" ->
  (forall l, lobby0 = Some l -> handle l < next w) ->
  Forall (fun h => h < next w) (open w) ->
  exists w',
    joinExistingPreparationRoom X te roomId_ lobby0 w = (Ok tt, w') /\
    trace w' =
      trace w ++
      [ECurrentUserGetIdToken; EDispatch resetPreparation; EJoinById roomId_ token;
       EStoreSet RECONNECTION_PREPARATION
         (mkCredential (ans_reconnectionToken a) (ans_roomId a)) 30] ++
      leave_events lobby0 w ++
      (if ans_isOpen a then [ELeave (next w) false] else []) ++
      [EDispatch resetLobby; ENavigate "/preparation"] /\
    isOpen (next w) w' = false /\
    lobby_isOpen lobby0 w' = false /\
    cred_preparation w' = Some (mkCredential (ans_reconnectionToken a) (ans_roomId a)).
Proof.
  intros Hu Ht Hj Hn Hl Ho.
  assert (Hfresh0 : existsb (Nat.eqb (next w)) (open w) = false).
  { apply existsb_fresh with (n := next w); [exact Ho|lia]. }
  unfold joinExistingPreparationRoom, try_catch, transition_body.
  munfold. rewrite Hu. simpl. rewrite Ht. simpl. rewrite Hj. simpl. rewrite Hn. simpl.
  destruct lobby0 as [l|]; simpl.
  - specialize (Hl l eq_refl).
    assert (Hne : Nat.eqb (handle l) (next w) = false) by (apply Nat.eqb_neq; lia).
    assert (Hne' : Nat.eqb (next w) (handle l) = false) by (apply Nat.eqb_neq; lia).
    unfold isOpen. simpl.
    destruct (ans_isOpen a); simpl; rewrite ?Hne; simpl;
      destruct (existsb (Nat.eqb (handle l)) (open w)) eqn:Hopen; simpl;
      repeat first [ rewrite Nat.eqb_refl | rewrite existsb_filter_neq
                   | rewrite Hne | rewrite Hne' | rewrite Hfresh0
                   | rewrite Hopen | progress simpl ];
      eexists; (split; [reflexivity|]); unfold isOpen; simpl;
      rewrite <- ?app_assoc; simpl;
      repeat first [ rewrite Nat.eqb_refl | rewrite existsb_filter_neq
                   | rewrite Hne | rewrite Hne' | rewrite Hfresh0
                   | rewrite Hopen | rewrite andb_false_r | progress simpl ];
      repeat split; reflexivity.
  - unfold isOpen. simpl.
    destruct (ans_isOpen a); simpl;
      rewrite ?Nat.eqb_refl, ?Hfresh0; simpl;
      eexists; (split; [reflexivity|]); unfold isOpen; simpl;
      rewrite <- ?app_assoc; simpl;
      repeat first [ rewrite Nat.eqb_refl | rewrite existsb_filter_neq
                   | rewrite Hfresh0 | progress simpl ];
      repeat split; reflexivity.
Qed.

Lemma transition_invalid_trace te roomId_ lobby0 w token a :
  currentUser te = Some (Ok token) ->
  truthy token = true ->
  joinById_res te roomId_ token = Ok a ->
  ans_name a <> "preparation" ->
  Forall (fun h => h < next w) (open w) ->
  exists w1 w',
    transition_body te roomId_ lobby0 w = (Throw (UnexpectedRoomKind (ans_name a)), w1) /\
    joinExistingPreparationRoom X te roomId_ lobby0 w = (Ok tt, w') /\
    trace w' =
      trace w ++
      [ECurrentUserGetIdToken; EDispatch resetPreparation; EJoinById roomId_ token] ++
      (if ans_isOpen a then [ELeave (next w) false] else []) ++
      [ELogError (UnexpectedRoomKind (ans_name a))] /\
    cred_preparation w' = cred_preparation w /\
    isOpen (next w) w' = false.
Proof.
  intros Hu Ht Hj Hn Ho.
  assert (Hfresh0 : existsb (Nat.eqb (next w)) (open w) = false).
  { apply existsb_fresh with (n := next w); [exact Ho|lia]. }
  apply String.eqb_neq in Hn.
  unfold joinExistingPreparationRoom, try_catch, transition_body.
  munfold. rewrite Hu. simpl. rewrite Ht. simpl. rewrite Hj. simpl. rewrite Hn. simpl.
  unfold isOpen. simpl.
  destruct (ans_isOpen a); simpl;
    repeat first [ rewrite Nat.eqb_refl | rewrite Hfresh0 | progress simpl ];
    do 2 eexists; (split; [reflexivity|]); (split; [reflexivity|]);
    unfold isOpen; simpl; rewrite <- ?app_assoc; simpl;
    repeat first [ rewrite Nat.eqb_refl | rewrite existsb_filter_neq
                 | rewrite Hfresh0 | progress simpl ];
    repeat split; reflexivity.
Qed.


(** C1, as the code has it: in every transition that passes the validation
    of the kind, the leaving step makes a non-consented leave of the lobby
    handle it was given, when that handle is present and its connection is
    open, and then of the preparation room it has just joined, when its
    connection is open, and no other leave; when the transition completes
    neither of the two connections is open. *)
Theorem transition_leaves_lobby_and_joined_room te roomId_ lobby0 w token a :
  currentUser te = Some (Ok token) ->
  truthy token = true ->
  joinById_res te roomId_ token = Ok a ->
  ans_name a = "preparation" ->
  (forall l, lobby0 = Some l -> handle l < next w) ->
  Forall (fun h => h < next w) (open w) ->
  filter is_leave
    (new_events w (snd (joinExistingPreparationRoom X te roomId_ lobby0 w))) =
    leave_events lobby0 w ++ (if ans_isOpen a then [ELeave (next w) false] else []) /\
  isOpen (next w) (snd (joinExistingPreparationRoom X te roomId_ lobby0 w)) = false /\
  lobby_isOpen lobby0 (snd (joinExistingPreparationRoom X te roomId_ lobby0 w)) = false.
Proof.
  intros Hu Ht Hj Hn Hl Ho.
  destruct (transition_valid_trace te roomId_ lobby0 w token a Hu Ht Hj Hn Hl Ho)
    as (w' & E & Htr & Hroom & Hlobby & _).
  rewrite E. simpl snd. rewrite (new_events_app _ _ _ Htr).
  repeat split; try assumption.
  simpl. rewrite !filter_app, filter_leave_events.
  destruct (ans_isOpen a); reflexivity.
Qed.

(** C2: on a [REQUEST_ROOM] message carrying [roomId_], when an identity
    token exists and the joined room reports the kind "preparation", the
    handler joins the room by id presenting the token, passes the
    validation of the kind, stores the credential (reconnection token and
    room id) under the preparation key with a TTL of 30 seconds, makes the
    guarded leave of the lobby handle, dispatches [resetLobby] and
    navigates to "/preparation", in this order.  The whole sequence is
    given: it also dispatches [resetPreparation] before the join and makes
    the guarded leave of the joined room after the one of the lobby. *)
Theorem request_room_transition_order te roomId_ lobby0 w token a :
  currentUser te = Some (Ok token) ->
  truthy token = true ->
  joinById_res te roomId_ token = Ok a ->
  ans_name a = "preparation" ->
  (forall l, lobby0 = Some l -> handle l < next w) ->
  Forall (fun h => h < next w) (open w) ->
  fst (on_message X te lobby0 (MRequestRoom roomId_) w) = Ok tt /\
  new_events w (snd (on_message X te lobby0 (MRequestRoom roomId_) w)) =
    [ECurrentUserGetIdToken; EDispatch resetPreparation; EJoinById roomId_ token;
     EStoreSet RECONNECTION_PREPARATION
       (mkCredential (ans_reconnectionToken a) (ans_roomId a)) 30] ++
    leave_events lobby0 w ++
    (if ans_isOpen a then [ELeave (next w) false] else []) ++
    [EDispatch resetLobby; ENavigate "/preparation"].
Proof.
  intros Hu Ht Hj Hn Hl Ho. unfold on_message.
  destruct (transition_valid_trace te roomId_ lobby0 w token a Hu Ht Hj Hn Hl Ho)
    as (w' & E & Htr & _).
  rewrite E. split; [reflexivity|]. apply new_events_app. exact Htr.
Qed.

(** C7: when the joined room reports a kind other than "preparation", the
    transition leaves the room it has just joined if its connection is
    open, fails with the [UnexpectedRoomKind] error (which its own [catch]
    logs), stores no preparation credential and does not navigate. *)
Theorem unexpected_room_kind_aborts te roomId_ lobby0 w token a :
  currentUser te = Some (Ok token) ->
  truthy token = true ->
  joinById_res te roomId_ token = Ok a ->
  ans_name a <> "preparation" ->
  Forall (fun h => h < next w) (open w) ->
  fst (transition_body te roomId_ lobby0 w) = Throw (UnexpectedRoomKind (ans_name a)) /\
  new_events w (snd (joinExistingPreparationRoom X te roomId_ lobby0 w)) =
    [ECurrentUserGetIdToken; EDispatch resetPreparation; EJoinById roomId_ token] ++
    (if ans_isOpen a then [ELeave (next w) false] else []) ++
    [ELogError (UnexpectedRoomKind (ans_name a))] /\
  cred_preparation (snd (joinExistingPreparationRoom X te roomId_ lobby0 w)) =
    cred_preparation w /\
  (forall k c ttl,
     ~ In (EStoreSet k c ttl)
          (new_events w (snd (joinExistingPreparationRoom X te roomId_ lobby0 w)))) /\
  (forall path,
     ~ In (ENavigate path)
          (new_events w (snd (joinExistingPreparationRoom X te roomId_ lobby0 w)))).
Proof.
  intros Hu Ht Hj Hn Ho.
  destruct (transition_invalid_trace te roomId_ lobby0 w token a Hu Ht Hj Hn Ho)
    as (w1 & w' & Eb & E & Htr & Hc & _).
  rewrite Eb, E. simpl fst. simpl snd. rewrite (new_events_app _ _ _ Htr).
  repeat split; try assumption.
  - intros k c ttl Hin. destruct (ans_isOpen a); in_events Hin.
  - intros path Hin. destruct (ans_isOpen a); in_events Hin.
Qed.

End TransitionProperties.

(** C1, as stated, does not hold: with no lobby handle and a preparation
    room whose connection is open, the leaving step leaves the room it has
    just joined. *)
Lemma joined_room_is_left : ~ leaves_only_the_lobby sample_externals.
Proof.
  intros H.
  destruct (H tenv_prep "prep42" None empty_world "id-token" prep_answer
              eq_refl eq_refl eq_refl eq_refl) as [Hleave _].
  specialize (Hleave 0 false). vm_compute in Hleave.
  assert (E : @None nat = Some 0) by (apply Hleave; repeat (try (left; reflexivity); right)).
  discriminate E.
Qed.

(** ** One invocation of [joinLobbyRoom] *)

Lemma connect_steps_S n env pc w :
  connect_steps (S n) env pc w =
  connect_steps n env (fst (connect_step env pc w)) (snd (connect_step env pc w)).
Proof.
  change (connect_steps (S n) env pc w)
    with (let '(pc', w') := connect_step env pc w in connect_steps n env pc' w').
  destruct (connect_step env pc w). reflexivity.
Qed.

Lemma connect_steps_final n env pc w :
  final pc = true -> connect_steps n env pc w = (pc, w).
Proof.
  revert pc w. induction n as [|n IH]; intros pc w Hf; [reflexivity|].
  rewrite connect_steps_S.
  destruct pc; try discriminate; simpl; apply IH; reflexivity.
Qed.

Lemma connect_step_start env w :
  lobby_isOpen (lobby w) w = false ->
  connect_step env PStart w = (PAwaitAuth (lobby w), snd (emit EAuthenticateUser w)).
Proof.
  unfold lobby_isOpen, connect_step. intros Ho.
  destruct (lobby w) as [l|]; rewrite ?Ho; reflexivity.
Qed.

Lemma connect_open env w l :
  lobby w = Some l -> isOpen (handle l) w = true ->
  connect env w = (PSettled (Resolved l), w).
Proof.
  intros Hl Ho. unfold connect. rewrite connect_steps_S.
  unfold connect_step. rewrite Hl, Ho. simpl.
  apply connect_steps_final. reflexivity.
Qed.

Lemma connect_auth_rejected env w e :
  lobby_isOpen (lobby w) w = false ->
  authenticateUser_res env = Throw e ->
  connect env w = (PUnsettled, snd (emit EAuthenticateUser w)).
Proof.
  intros Ho Ha. unfold connect.
  rewrite connect_steps_S, connect_step_start by exact Ho. simpl fst. simpl snd.
  rewrite connect_steps_S. unfold connect_step. rewrite Ha. simpl fst. simpl snd.
  apply connect_steps_final. reflexivity.
Qed.

Lemma connect_failed_reconnect env w c e :
  lobby_isOpen (lobby w) w = false ->
  authenticateUser_res env = Ok tt ->
  cred_lobby w = Some c ->
  truthy (cred_reconnectionToken c) = true ->
  reconnect_res env (cred_reconnectionToken c) = Throw e ->
  connect env w =
  connect_steps 2 env (PAwaitIdToken (lobby w))
    (mkWorld (lobby w) None (cred_preparation w) (open w) (next w) (listeners w)
       (trace w ++ [EAuthenticateUser; EStoreGet RECONNECTION_LOBBY;
                    EReconnect (cred_reconnectionToken c);
                    EStoreDelete RECONNECTION_LOBBY; EUserGetIdToken])).
Proof.
  intros Ho Ha Hc Ht Hr. unfold connect.
  rewrite connect_steps_S, connect_step_start by exact Ho. simpl fst. simpl snd.
  rewrite connect_steps_S. unfold connect_step at 1 2. rewrite Ha. simpl.
  rewrite Hc. simpl. rewrite Ht. unfold suspend, emit. simpl.
  rewrite connect_steps_S. unfold connect_step at 1 2. rewrite Hr.
  unfold suspend, localStore_delete, set_cred, emit. simpl.
  rewrite <- ?app_assoc. reflexivity.
Qed.

Lemma settle_setup lobby0 a w :
  settle (room <- new_room a ;; setup lobby0 room ;;; ret room) w =
  (PSettled (Resolved (lobby_room a w)), connected lobby0 a w).
Proof.
  mcbv. unfold connected, lobby_room, setup_listeners.
  simpl map. rewrite <- ?app_assoc. reflexivity.
Qed.

Lemma settle_throw e w :
  settle (throw e) w =
  (PSettled (Rejected e), rejected e w).
Proof.
  unfold rejected, surfaced. mcbv.
  destruct (err_message e) as [m|]; [destruct (truthy m)|];
    mcbv; rewrite <- ?app_assoc; reflexivity.
Qed.

Lemma steps_from_idToken n env lobby0 w :
  connect_steps (S (S n)) env (PAwaitIdToken lobby0) w =
  match getIdToken_res env with
  | Ok idToken =>
      let w1 := snd (emit (EJoin "lobby" idToken) w) in
      match join_res env "lobby" idToken with
      | Ok a => (PSettled (Resolved (lobby_room a w1)), connected lobby0 a w1)
      | Throw e => (PSettled (Rejected e), rejected e w1)
      end
  | Throw e => (PSettled (Rejected e), rejected e w)
  end.
Proof.
  rewrite connect_steps_S. unfold connect_step at 1 2.
  destruct (getIdToken_res env) as [idToken|e].
  - unfold suspend. simpl fst. simpl snd. cbv zeta.
    rewrite connect_steps_S. unfold connect_step at 1 2.
    destruct (join_res env "lobby" idToken) as [a|e].
    + rewrite settle_setup. simpl fst. simpl snd.
      apply connect_steps_final. reflexivity.
    + rewrite settle_throw. simpl fst. simpl snd.
      apply connect_steps_final. reflexivity.
  - rewrite settle_throw. simpl fst. simpl snd.
    rewrite connect_steps_final by reflexivity. reflexivity.
Qed.

Lemma surfaced_no_reconnect e : count is_reconnect (surfaced e) = 0.
Proof.
  unfold surfaced. destruct (err_message e) as [m|]; [destruct (truthy m)|];
    reflexivity.
Qed.

(** C3: when a lobby credential with a token is stored and the reconnection
    with that token fails, [joinLobbyRoom] deletes the stored credential,
    makes no second reconnection, asks the user for an identity token and,
    once it has one, joins the lobby with it; the promise settles, a
    rejection carries the error of [getIdToken] or of [join], never the
    one of the reconnection, and the whole run is the same whatever error
    the reconnection failed with. *)
Theorem reconnect_failure_falls_back env w c e :
  lobby_isOpen (lobby w) w = false ->
  authenticateUser_res env = Ok tt ->
  cred_lobby w = Some c ->
  truthy (cred_reconnectionToken c) = true ->
  reconnect_res env (cred_reconnectionToken c) = Throw e ->
  exists rest,
    new_events w (snd (connect env w)) =
      [EAuthenticateUser; EStoreGet RECONNECTION_LOBBY;
       EReconnect (cred_reconnectionToken c);
       EStoreDelete RECONNECTION_LOBBY; EUserGetIdToken] ++ rest /\
    count is_reconnect rest = 0 /\
    (forall idToken, getIdToken_res env = Ok idToken ->
       exists rest', rest = EJoin "lobby" idToken :: rest') /\
    (exists o, fst (connect env w) = PSettled o) /\
    (forall o, fst (connect env w) = PSettled (Rejected o) ->
       getIdToken_res env = Throw o \/
       exists idToken, getIdToken_res env = Ok idToken /\
                       join_res env "lobby" idToken = Throw o) /\
    cred_lobby (snd (connect env w)) =
      match fst (connect env w) with
      | PSettled (Resolved room) =>
          Some (mkCredential (reconnectionToken room) (roomId room))
      | _ => None
      end /\
    (forall env' e',
       authenticateUser_res env' = authenticateUser_res env ->
       getIdToken_res env' = getIdToken_res env ->
       (forall idToken, join_res env' "lobby" idToken = join_res env "lobby" idToken) ->
       reconnect_res env' (cred_reconnectionToken c) = Throw e' ->
       connect env' w = connect env w).
Proof.
  intros Ho Ha Hc Ht Hr.
  assert (Hind : forall env' e',
       authenticateUser_res env' = authenticateUser_res env ->
       getIdToken_res env' = getIdToken_res env ->
       (forall idToken, join_res env' "lobby" idToken = join_res env "lobby" idToken) ->
       reconnect_res env' (cred_reconnectionToken c) = Throw e' ->
       connect env' w = connect env w).
  { intros env' e' Ha' Hg' Hj' Hr'.
    rewrite (connect_failed_reconnect env w c e) by assumption.
    rewrite (connect_failed_reconnect env' w c e') by congruence.
    rewrite !(steps_from_idToken 0). rewrite Hg'.
    destruct (getIdToken_res env) as [idToken|o]; [|reflexivity].
    simpl. rewrite Hj'. reflexivity. }
  revert Hind.
  rewrite (connect_failed_reconnect env w c e) by assumption.
  rewrite (steps_from_idToken 0).
  destruct (getIdToken_res env) as [idToken|o] eqn:Hg;
    [cbv zeta; destruct (join_res env "lobby" idToken) as [a|o] eqn:Hj|];
    intros Hind; eexists;
    (split; [apply new_events_app; unfold connected, rejected, emit; simpl trace;
             rewrite <- ?app_assoc; simpl; reflexivity|]);
    repeat split; try reflexivity; try exact Hind; try (eexists; reflexivity).
  - intros tk Hk. injection Hk as <-. eexists. reflexivity.
  - simpl. intros o Ho'. discriminate.
  - change (count is_reconnect ([EJoin "lobby" idToken] ++ surfaced o) = 0).
    rewrite count_app, surfaced_no_reconnect. reflexivity.
  - intros tk Hk. injection Hk as <-. eexists. reflexivity.
  - simpl. intros o' Ho'. injection Ho' as <-. right. eauto.
  - apply surfaced_no_reconnect.
  - intros tk Hk. discriminate.
  - simpl. intros o' Ho'. injection Ho' as <-. left. reflexivity.
Qed.

(** C5: when a lobby handle is published and its connection is open,
    [joinLobbyRoom] resolves with that handle, makes no external call at
    all and leaves the world as it is, so that calling it again gives the
    same. *)
Theorem connect_open_lobby_idempotent env env' w l :
  lobby w = Some l ->
  isOpen (handle l) w = true ->
  connect env w = (PSettled (Resolved l), w) /\
  new_events w (snd (connect env w)) = [] /\
  connect env' (snd (connect env w)) = connect env w.
Proof.
  intros Hl Ho. rewrite !(connect_open env w l Hl Ho). simpl snd.
  repeat split.
  - apply new_events_app. symmetry. apply app_nil_r.
  - apply connect_open; assumption.
Qed.

(** C4, on the code: when no lobby is open and [authenticateUser()]
    rejects, the promise of [joinLobbyRoom] never settles and the top-level
    handler does not run: nothing is logged, no message is dispatched, no
    navigation happens. *)
Theorem auth_rejection_is_never_surfaced :
  connect env_no_user empty_world =
    (PUnsettled, mkWorld None None None [] 0 [] [EAuthenticateUser]) /\
  (forall o, fst (connect env_no_user empty_world) <> PSettled o) /\
  (forall e, ~ In (ELogError e) (trace (snd (connect env_no_user empty_world)))) /\
  (forall a, ~ In (EDispatch a) (trace (snd (connect env_no_user empty_world)))) /\
  (forall path, ~ In (ENavigate path) (trace (snd (connect env_no_user empty_world)))).
Proof.
  rewrite (connect_auth_rejected env_no_user empty_world no_user eq_refl eq_refl).
  simpl. repeat split; try discriminate.
  - intros e Hin. in_events Hin.
  - intros a Hin. in_events Hin.
  - intros p Hin. in_events Hin.
Qed.

(** The sibling path: a failure of [user.getIdToken()] does reach the
    top-level handler. *)
Lemma getIdToken_failure_is_surfaced env w e :
  lobby_isOpen (lobby w) w = false ->
  authenticateUser_res env = Ok tt ->
  cred_lobby w = None ->
  getIdToken_res env = Throw e ->
  fst (connect env w) = PSettled (Rejected e) /\
  new_events w (snd (connect env w)) =
    [EAuthenticateUser; EStoreGet RECONNECTION_LOBBY; EUserGetIdToken] ++ surfaced e.
Proof.
  intros Ho Ha Hc Hg.
  assert (E : connect env w =
              (PSettled (Rejected e),
               rejected e
                 (mkWorld (lobby w) (cred_lobby w) (cred_preparation w) (open w)
                    (next w) (listeners w)
                    (trace w ++ [EAuthenticateUser; EStoreGet RECONNECTION_LOBBY;
                                 EUserGetIdToken])))).
  { unfold connect.
    rewrite connect_steps_S, connect_step_start by exact Ho. simpl fst. simpl snd.
    rewrite connect_steps_S. unfold connect_step at 1 2. rewrite Ha. simpl.
    rewrite Hc. unfold suspend, emit. simpl.
    rewrite connect_steps_S. unfold connect_step at 1 2. rewrite Hg.
    rewrite settle_throw. simpl fst. simpl snd.
    rewrite connect_steps_final by reflexivity.
    rewrite <- !app_assoc. simpl. rewrite <- Hc. reflexivity. }
  rewrite E. split; [reflexivity|].
  apply new_events_app. unfold rejected. simpl. rewrite <- !app_assoc. reflexivity.
Qed.

Lemma step_remaining env pc w :
  remaining (fst (connect_step env pc w)) <= pred (remaining pc).
Proof.
  destruct pc; unfold connect_step; simpl.
  - destruct (lobby w) as [l|]; [destruct (isOpen (handle l) w)|]; simpl; lia.
  - destruct (authenticateUser_res env); simpl; [|lia].
    destruct (cred_lobby w) as [c|]; simpl;
      [destruct (truthy (cred_reconnectionToken c))|]; simpl; lia.
  - destruct (reconnect_res env reconnectToken); [rewrite settle_setup|]; simpl; lia.
  - destruct (getIdToken_res env); [|rewrite settle_throw]; simpl; lia.
  - destruct (join_res env "lobby" idToken);
      [rewrite settle_setup|rewrite settle_throw]; simpl; lia.
  - lia.
  - lia.
Qed.

Lemma steps_remaining n env pc w :
  remaining (fst (connect_steps n env pc w)) <= remaining pc - n.
Proof.
  revert pc w. induction n as [|n IH]; intros pc w.
  - simpl. lia.
  - rewrite connect_steps_S.
    pose proof (step_remaining env pc w) as H1.
    pose proof (IH (fst (connect_step env pc w)) (snd (connect_step env pc w))) as H2.
    lia.
Qed.

(** Five segments are enough: an invocation run alone always reaches a
    state in which its promise is settled, or will never be. *)
Lemma connect_is_final env w : final (fst (connect env w)) = true.
Proof.
  pose proof (steps_remaining 5 env PStart w) as H. unfold connect.
  destruct (fst (connect_steps 5 env PStart w)); simpl in *; try lia; reflexivity.
Qed.

(** A resolved invocation that did not find an open lobby has created its
    room: the room is new, and [setup] ran on it with the lobby constant
    read at the start. *)
Lemma connect_resolved_fresh env w room w' :
  lobby_isOpen (lobby w) w = false ->
  connect env w = (PSettled (Resolved room), w') ->
  exists a w0,
    room = lobby_room a w0 /\ w' = connected (lobby w) a w0 /\
    next w0 = next w /\ listeners w0 = listeners w /\ open w0 = open w.
Proof.
  intros Ho. unfold connect.
  rewrite connect_steps_S, connect_step_start by exact Ho. simpl fst. simpl snd.
  rewrite connect_steps_S. unfold connect_step at 1 2.
  destruct (authenticateUser_res env) as [u|e].
  - unfold suspend, emit. simpl.
    destruct (cred_lobby w) as [c|]; simpl;
      [destruct (truthy (cred_reconnectionToken c))|].
    + simpl fst. simpl snd. rewrite connect_steps_S. unfold connect_step at 1 2.
      destruct (reconnect_res env (cred_reconnectionToken c)) as [a|e].
      * rewrite settle_setup. simpl fst. simpl snd.
        rewrite connect_steps_final by reflexivity.
        intros E. injection E as <- <-. do 2 eexists. repeat split.
      * unfold suspend, localStore_delete, set_cred, emit. simpl.
        rewrite (steps_from_idToken 0).
        destruct (getIdToken_res env) as [idToken|e'];
          [cbv zeta; destruct (join_res env "lobby" idToken) as [a|e']|];
          intros E; try discriminate.
        injection E as <- <-. do 2 eexists. repeat split.
    + simpl fst. simpl snd. rewrite (steps_from_idToken 1).
      destruct (getIdToken_res env) as [idToken|e'];
        [cbv zeta; destruct (join_res env "lobby" idToken) as [a|e']|];
        intros E; try discriminate.
      injection E as <- <-. do 2 eexists. repeat split.
    + simpl fst. simpl snd. rewrite (steps_from_idToken 1).
      destruct (getIdToken_res env) as [idToken|e'];
        [cbv zeta; destruct (join_res env "lobby" idToken) as [a|e']|];
        intros E; try discriminate.
      injection E as <- <-. do 2 eexists. repeat split.
  - simpl fst. simpl snd. rewrite connect_steps_final by reflexivity.
    intros E. discriminate.
Qed.

(** ** Two pending invocations *)

Lemma run_app e1 e2 l1 l2 s :
  run e1 e2 (l1 ++ l2) s = run e1 e2 l2 (run e1 e2 l1 s).
Proof.
  revert s. induction l1 as [|who l1 IH]; intros s; simpl; [reflexivity|apply IH].
Qed.

Lemma run_first_only e1 e2 n s :
  run e1 e2 (repeat First n) s =
  mkSys (fst (connect_steps n e1 (first s) (world s))) (second s)
        (snd (connect_steps n e1 (first s) (world s))).
Proof.
  revert s. induction n as [|n IH]; intros s.
  - destruct s. reflexivity.
  - simpl repeat. simpl run. rewrite IH. rewrite connect_steps_S.
    unfold sys_step. destruct (connect_step e1 (first s) (world s)). reflexivity.
Qed.

(** A segment that leaves the invocation pending publishes nothing and
    opens no connection. *)
Lemma step_pending_frame env pc w :
  final (fst (connect_step env pc w)) = false ->
  lobby (snd (connect_step env pc w)) = lobby w /\
  open (snd (connect_step env pc w)) = open w /\
  final pc = false.
Proof.
  destruct pc; unfold connect_step; try discriminate.
  - destruct (lobby w) as [l|] eqn:El; [destruct (isOpen (handle l) w)|];
      simpl; try discriminate; intros _; repeat split; assumption.
  - destruct (authenticateUser_res env); simpl; try discriminate.
    unfold suspend, emit. simpl.
    destruct (cred_lobby w) as [c|]; simpl;
      [destruct (truthy (cred_reconnectionToken c))|]; intros _; repeat split.
  - destruct (reconnect_res env reconnectToken).
    + rewrite settle_setup. discriminate.
    + intros _. repeat split.
  - destruct (getIdToken_res env).
    + intros _. repeat split.
    + rewrite settle_throw. discriminate.
  - destruct (join_res env "lobby" idToken).
    + rewrite settle_setup. discriminate.
    + rewrite settle_throw. discriminate.
Qed.

(** The connection attempts a segment adds to the trace account for the
    progress of the invocation. *)
Lemma step_attempts env pc w :
  started pc = true \/ lobby_isOpen (lobby w) w = false ->
  started (fst (connect_step env pc w)) = true /\
  exists evs,
    trace (snd (connect_step env pc w)) = trace w ++ evs /\
    attempted (fst (connect_step env pc w)) <=
      count connection_attempt evs + attempted pc.
Proof.
  intros Hs. destruct pc; unfold connect_step.
  - destruct Hs as [Hs|Hs]; [discriminate|].
    unfold lobby_isOpen in Hs.
    destruct (lobby w) as [l|]; rewrite ?Hs;
      (split; [reflexivity|eexists; split; [reflexivity|simpl; lia]]).
  - destruct (authenticateUser_res env).
    + unfold suspend, emit. simpl.
      destruct (cred_lobby w) as [c|]; simpl;
        [destruct (truthy (cred_reconnectionToken c))|]; simpl;
        (split; [reflexivity|]); eexists;
        (split; [rewrite <- ?app_assoc; reflexivity|simpl; lia]).
    + split; [reflexivity|]. exists []. rewrite app_nil_r. simpl. split; [reflexivity|lia].
  - destruct (reconnect_res env reconnectToken).
    + rewrite settle_setup. split; [reflexivity|].
      unfold connected. simpl trace. eexists. split; [reflexivity|].
      simpl. lia.
    + split; [reflexivity|]. unfold suspend, localStore_delete, set_cred, emit.
      simpl. eexists. split; [rewrite <- ?app_assoc; reflexivity|simpl; lia].
  - destruct (getIdToken_res env).
    + split; [reflexivity|]. unfold suspend, emit. simpl.
      eexists. split; [reflexivity|]. simpl. lia.
    + rewrite settle_throw. split; [reflexivity|].
      unfold rejected. simpl trace. eexists. split; [reflexivity|]. simpl. lia.
  - destruct (join_res env "lobby" idToken).
    + rewrite settle_setup. split; [reflexivity|].
      unfold connected. simpl trace. eexists. split; [reflexivity|].
      simpl. lia.
    + rewrite settle_throw. split; [reflexivity|].
      unfold rejected. simpl trace. eexists. split; [reflexivity|]. simpl. lia.
  - split; [reflexivity|]. exists []. rewrite app_nil_r. simpl. split; [reflexivity|lia].
  - split; [reflexivity|]. exists []. rewrite app_nil_r. simpl. split; [reflexivity|lia].
Qed.

Lemma steps_pending_frame n env pc w :
  final (fst (connect_steps n env pc w)) = false ->
  lobby (snd (connect_steps n env pc w)) = lobby w /\
  open (snd (connect_steps n env pc w)) = open w /\
  final pc = false.
Proof.
  revert pc w. induction n as [|n IH]; intros pc w Hf.
  - repeat split. exact Hf.
  - rewrite connect_steps_S in *.
    destruct (IH _ _ Hf) as (Hl & Ho & Hf1).
    destruct (step_pending_frame env pc w Hf1) as (Hl1 & Ho1 & Hf0).
    repeat split; congruence.
Qed.

Lemma steps_attempts n env pc w :
  started pc = true \/ lobby_isOpen (lobby w) w = false ->
  (1 <= n -> started (fst (connect_steps n env pc w)) = true) /\
  exists evs,
    trace (snd (connect_steps n env pc w)) = trace w ++ evs /\
    attempted (fst (connect_steps n env pc w)) <=
      count connection_attempt evs + attempted pc.
Proof.
  revert pc w. induction n as [|n IH]; intros pc w Hs.
  - split; [lia|]. exists []. rewrite app_nil_r. split; [reflexivity|simpl; lia].
  - rewrite connect_steps_S.
    destruct (step_attempts env pc w Hs) as (Hst & evs1 & Ht1 & Ha1).
    destruct (IH _ (snd (connect_step env pc w)) (or_introl Hst))
      as (_ & evs2 & Ht2 & Ha2).
    split.
    + intros _. destruct n as [|n'].
      * exact Hst.
      * destruct (IH _ (snd (connect_step env pc w)) (or_introl Hst)) as (H & _).
        apply H. lia.
    + exists (evs1 ++ evs2). rewrite Ht2, Ht1, <- app_assoc, count_app.
      split; [reflexivity|lia].
Qed.

Lemma lobby_isOpen_frame (l : option Room) (w w' : World) :
  open w' = open w -> lobby_isOpen l w' = lobby_isOpen l w.
Proof.
  intros Ho. destruct l as [r|]; [|reflexivity].
  unfold lobby_isOpen, isOpen. rewrite Ho. reflexivity.
Qed.

(** Once both invocations are under way, every schedule keeps the account
    of connection attempts. *)
Lemma run_attempts e1 e2 w sched s :
  started (first s) = true -> started (second s) = true ->
  (exists evs, trace (world s) = trace w ++ evs /\
     attempted (first s) + attempted (second s) <= count connection_attempt evs) ->
  exists evs, trace (world (run e1 e2 sched s)) = trace w ++ evs /\
     attempted (first (run e1 e2 sched s)) + attempted (second (run e1 e2 sched s))
       <= count connection_attempt evs.
Proof.
  revert s. induction sched as [|who sched IH]; intros s H1 H2 (evs & Ht & Ha).
  - exists evs. split; assumption.
  - simpl run. destruct who; unfold sys_step.
    + destruct (step_attempts e1 (first s) (world s) (or_introl H1))
        as (Hst & evs1 & Ht1 & Ha1).
      destruct (connect_step e1 (first s) (world s)) as [pc w1].
      simpl in *. apply IH; simpl; try assumption.
      exists (evs ++ evs1). rewrite Ht1, Ht, <- app_assoc, count_app.
      split; [reflexivity|lia].
    + destruct (step_attempts e2 (second s) (world s) (or_introl H2))
        as (Hst & evs1 & Ht1 & Ha1).
      destruct (connect_step e2 (second s) (world s)) as [pc w1].
      simpl in *. apply IH; simpl; try assumption.
      exists (evs ++ evs1). rewrite Ht1, Ht, <- app_assoc, count_app.
      split; [reflexivity|lia].
Qed.

(** C6, as the code has it: a second invocation made while the first is
    still pending does not wait for the first nor share its attempt: it
    starts its own authentication, and when both invocations resolve, at
    least two network connection attempts (reconnect or join) have been
    made in total, whatever the interleaving. *)
Theorem pending_connect_is_not_shared e1 e2 w k sched r1 r2 :
  final (first (run e1 e2 (repeat First (S k)) (mkSys PStart PStart w))) = false ->
  first (run e1 e2 (repeat First (S k) ++ Second :: sched) (mkSys PStart PStart w))
    = PSettled (Resolved r1) ->
  second (run e1 e2 (repeat First (S k) ++ Second :: sched) (mkSys PStart PStart w))
    = PSettled (Resolved r2) ->
  second (run e1 e2 (repeat First (S k) ++ [Second]) (mkSys PStart PStart w))
    = PAwaitAuth (lobby w) /\
  2 <= count connection_attempt
         (new_events w (world (run e1 e2 (repeat First (S k) ++ Second :: sched)
                                   (mkSys PStart PStart w)))).
Proof.
  intros Hpend Hr1 Hr2.
  rewrite !run_app in *. rewrite !run_first_only in *. simpl first in *.
  simpl second in *. simpl world in *.
  destruct (steps_pending_frame _ _ _ _ Hpend) as (Hl & Ho & _).
  assert (Hclosed : lobby_isOpen (lobby w) w = false).
  { destruct (lobby_isOpen (lobby w) w) eqn:E; [|reflexivity]. exfalso.
    unfold lobby_isOpen in E. destruct (lobby w) as [l|] eqn:El; [|discriminate].
    rewrite connect_steps_S in Hpend. unfold connect_step in Hpend.
    rewrite El, E in Hpend. simpl in Hpend.
    rewrite connect_steps_final in Hpend by reflexivity. discriminate. }
  destruct (steps_attempts (S k) e1 PStart w (or_intror Hclosed))
    as (Hst & evs1 & Ht1 & Ha1).
  specialize (Hst ltac:(lia)).
  remember (connect_steps (S k) e1 PStart w) as r eqn:Er. destruct r as [pc1 w1].
  simpl in *.
  assert (Hstart : connect_step e2 PStart w1 =
                   (PAwaitAuth (lobby w), snd (emit EAuthenticateUser w1))).
  { rewrite connect_step_start; [rewrite Hl; reflexivity|].
    rewrite Hl. rewrite (lobby_isOpen_frame _ w w1 Ho). exact Hclosed. }
  unfold sys_step in *. simpl in *. rewrite Hstart in *. simpl in *.
  split; [reflexivity|].
  destruct (run_attempts e1 e2 w sched
              (mkSys pc1 (PAwaitAuth (lobby w))
                 (mkWorld (lobby w1) (cred_lobby w1) (cred_preparation w1) (open w1)
                          (next w1) (listeners w1) (trace w1 ++ [EAuthenticateUser]))))
    as (evs & Ht & Ha); simpl; try assumption; try reflexivity.
  - exists (evs1 ++ [EAuthenticateUser]). rewrite Ht1, <- app_assoc, count_app.
    split; [reflexivity|simpl; lia].
  - rewrite (new_events_app _ _ _ Ht). rewrite Hr1, Hr2 in Ha. simpl in Ha. lia.
Qed.

(** C6, as stated, does not hold: with an empty credential store and the
    two invocations taking turns, the lobby is joined twice. *)
Lemma two_pending_connects_join_twice : ~ one_join_for_two_pending_connects.
Proof.
  intros H.
  specialize (H env_ok env_ok empty_world 0
                [First; Second; First; Second; First; Second]
                eq_refl eq_refl eq_refl).
  vm_compute in H. discriminate H.
Qed.

(** ** Callbacks *)

Section CallbackProperties.

Variable X : Externals.

Lemma shouldGoToLoginPage_spec pathname code :
  shouldGoToLoginPage X pathname code = true <->
  pathname = "/lobby" /\ identity_invalid X code.
Proof.
  unfold shouldGoToLoginPage, identity_invalid.
  rewrite andb_true_iff, !orb_true_iff, String.eqb_eq, !Z.eqb_eq.
  tauto.
Qed.

(** C8: when the lobby connection is closed with [code], the navigation to
    "/" happens exactly when the user is on "/lobby" and the code is one of
    user-inactive, user-banned, user-deleted, user-not-authenticated; a
    message is dispatched exactly when, moreover, the table has a
    non-empty entry for the code; in every other case nothing happens but
    the log line. *)
Theorem onLeave_forced_navigation pathname code w :
  exists evs,
    new_events w (snd (onLeave X pathname code w)) = ELogInfo code :: evs /\
    (In (ENavigate "/") evs <-> pathname = "/lobby" /\ identity_invalid X code) /\
    (forall path, In (ENavigate path) evs -> path = "/") /\
    (forall msg,
       In (EDispatch (setErrorAlertMessage msg)) evs <->
       (pathname = "/lobby" /\ identity_invalid X code) /\
       exists m, CloseCodesMessages X code = Some m /\ truthy m = true /\
                 msg = t X ("errors." ++ m)%string) /\
    (~ (pathname = "/lobby" /\ identity_invalid X code) -> evs = []).
Proof.
  pose proof (shouldGoToLoginPage_spec pathname code) as Hs.
  unfold onLeave. munfold.
  destruct (shouldGoToLoginPage X pathname code) eqn:Hgo; simpl.
  - assert (Hf : pathname = "/lobby" /\ identity_invalid X code)
      by (apply Hs; reflexivity).
    destruct (CloseCodesMessages X code) as [m|] eqn:Hm; simpl;
      [destruct (truthy m) eqn:Htm; simpl|];
      (eexists; split;
       [apply new_events_app; simpl; rewrite <- ?app_assoc; simpl; reflexivity|]);
      repeat split; intros; try tauto.
    all: try (simpl; tauto).
    all: try match goal with
             | H : In _ _ |- _ => in_events H
             end.
    all: try match goal with
             | H : _ /\ (exists _, _) |- _ =>
                 destruct H as (_ & m' & Hm' & Htm' & ->); try congruence
             end.
    + eexists. repeat split; eauto.
    + left. congruence.
  - assert (Hf : ~ (pathname = "/lobby" /\ identity_invalid X code)).
    { intros Hf. apply Hs in Hf. discriminate. }
    exists []. split; [apply new_events_app; reflexivity|].
    repeat split; intros; try tauto; try contradiction.
    all: simpl in *; tauto.
Qed.

End CallbackProperties.

(** ** Instances on the sample inputs *)

Lemma transition_leaves_lobby_and_joined_room_witness :
  filter is_leave
    (new_events world_connected
       (snd (joinExistingPreparationRoom sample_externals tenv_prep "prep42"
               (Some lobby1) world_connected))) =
  [ELeave 0 false; ELeave 1 false].
Proof.
  refine (proj1 (transition_leaves_lobby_and_joined_room sample_externals tenv_prep
                   "prep42" (Some lobby1) world_connected "id-token" prep_answer
                   eq_refl eq_refl eq_refl eq_refl _ _)).
  - intros l E. injection E as <-. simpl. lia.
  - repeat constructor.
Defined.

Lemma request_room_transition_order_witness :
  new_events world_connected
    (snd (on_message sample_externals tenv_prep (Some lobby1) (MRequestRoom "prep42")
            world_connected)) =
  [ECurrentUserGetIdToken; EDispatch resetPreparation; EJoinById "prep42" "id-token";
   EStoreSet RECONNECTION_PREPARATION (mkCredential "xyz" "prep42") 30;
   ELeave 0 false; ELeave 1 false; EDispatch resetLobby; ENavigate "/preparation"].
Proof.
  refine (proj2 (request_room_transition_order sample_externals tenv_prep "prep42"
                   (Some lobby1) world_connected "id-token" prep_answer
                   eq_refl eq_refl eq_refl eq_refl _ _)).
  - intros l E. injection E as <-. simpl. lia.
  - repeat constructor.
Defined.

Lemma reconnect_failure_falls_back_witness :
  exists rest,
    new_events world_with_credential (snd (connect env_ok world_with_credential)) =
      [EAuthenticateUser; EStoreGet RECONNECTION_LOBBY; EReconnect "abc";
       EStoreDelete RECONNECTION_LOBBY; EUserGetIdToken] ++ rest /\
    count is_reconnect rest = 0.
Proof.
  destruct (reconnect_failure_falls_back env_ok world_with_credential
              (mkCredential "abc" "lobby1") network_down
              eq_refl eq_refl eq_refl eq_refl eq_refl) as (rest & H1 & H2 & _).
  exists rest. split; assumption.
Defined.

Lemma connect_open_lobby_idempotent_witness :
  connect env_ok world_connected = (PSettled (Resolved lobby1), world_connected) /\
  new_events world_connected (snd (connect env_ok world_connected)) = [] /\
  connect env_no_user (snd (connect env_ok world_connected)) =
    connect env_ok world_connected.
Proof.
  exact (connect_open_lobby_idempotent env_ok env_no_user world_connected lobby1
           eq_refl eq_refl).
Defined.

Lemma pending_connect_is_not_shared_witness :
  second (run env_ok env_ok [First; Second] (mkSys PStart PStart empty_world)) =
    PAwaitAuth None /\
  2 <= count connection_attempt
         (new_events empty_world
            (world (run env_ok env_ok alternate (mkSys PStart PStart empty_world)))).
Proof.
  exact (pending_connect_is_not_shared env_ok env_ok empty_world 0
           [First; Second; First; Second; First; Second] lobby1 lobby2
           eq_refl eq_refl eq_refl).
Defined.

Lemma unexpected_room_kind_aborts_witness :
  fst (transition_body tenv_game "prep42" (Some lobby1) world_connected) =
    Throw (UnexpectedRoomKind "game") /\
  new_events world_connected
    (snd (joinExistingPreparationRoom sample_externals tenv_game "prep42"
            (Some lobby1) world_connected)) =
    [ECurrentUserGetIdToken; EDispatch resetPreparation; EJoinById "prep42" "id-token";
     ELeave 1 false; ELogError (UnexpectedRoomKind "game")].
Proof.
  destruct (unexpected_room_kind_aborts sample_externals tenv_game "prep42"
              (Some lobby1) world_connected "id-token" game_answer
              eq_refl eq_refl eq_refl) as (H1 & H2 & _).
  - discriminate.
  - repeat constructor.
  - split; [exact H1|exact H2].
Defined.

Lemma onLeave_forced_navigation_witness :
  exists evs,
    new_events empty_world (snd (onLeave sample_externals "/lobby" 4002 empty_world)) =
      ELogInfo 4002 :: evs /\
    (In (ENavigate "/") evs <->
     "/lobby" = "/lobby" /\ identity_invalid sample_externals 4002).
Proof.
  destruct (onLeave_forced_navigation sample_externals "/lobby" 4002 empty_world)
    as (evs & H1 & H2 & _).
  exists evs. split; assumption.
Defined.

(** * Further properties *)

(** ** The paths of [joinLobbyRoom] *)

Lemma connect_reconnected env w c a :
  lobby_isOpen (lobby w) w = false ->
  authenticateUser_res env = Ok tt ->
  cred_lobby w = Some c ->
  truthy (cred_reconnectionToken c) = true ->
  reconnect_res env (cred_reconnectionToken c) = Ok a ->
  connect env w =
  (PSettled (Resolved (lobby_room a w)),
   connected (lobby w) a
     (after_calls [EAuthenticateUser; EStoreGet RECONNECTION_LOBBY;
                   EReconnect (cred_reconnectionToken c)] w)).
Proof.
  intros Ho Ha Hc Ht Hr. unfold connect.
  rewrite connect_steps_S, connect_step_start by exact Ho. simpl fst. simpl snd.
  rewrite connect_steps_S. unfold connect_step at 1 2. rewrite Ha. simpl.
  rewrite Hc. simpl. rewrite Ht. unfold suspend, emit. simpl.
  rewrite connect_steps_S. unfold connect_step at 1 2. rewrite Hr.
  rewrite settle_setup. simpl fst. simpl snd.
  rewrite connect_steps_final by reflexivity.
  unfold after_calls, connected, lobby_room. simpl.
  rewrite <- ?app_assoc. simpl. reflexivity.
Qed.

Lemma connect_without_token env w :
  lobby_isOpen (lobby w) w = false ->
  authenticateUser_res env = Ok tt ->
  usable_token w = None ->
  connect env w =
  connect_steps 3 env (PAwaitIdToken (lobby w))
    (after_calls [EAuthenticateUser; EStoreGet RECONNECTION_LOBBY; EUserGetIdToken] w).
Proof.
  intros Ho Ha Hu. unfold connect.
  rewrite connect_steps_S, connect_step_start by exact Ho. simpl fst. simpl snd.
  rewrite connect_steps_S. unfold connect_step at 1 2. rewrite Ha. simpl.
  unfold usable_token in Hu. unfold after_calls.
  destruct (cred_lobby w) as [c|] eqn:Hc; simpl;
    [destruct (truthy (cred_reconnectionToken c)); [discriminate|]|];
    unfold suspend, emit; simpl; rewrite <- ?app_assoc; simpl;
    rewrite <- ?Hc; reflexivity.
Qed.

Lemma usable_token_some w tok :
  usable_token w = Some tok ->
  exists c, cred_lobby w = Some c /\ truthy (cred_reconnectionToken c) = true /\
            tok = cred_reconnectionToken c.
Proof.
  unfold usable_token. destruct (cred_lobby w) as [c|]; [|discriminate].
  destruct (truthy (cred_reconnectionToken c)) eqn:Ht; [|discriminate].
  intros E. injection E as <-. exists c. repeat split. exact Ht.
Qed.

(** Every run of an invocation that did not find an open lobby: some calls
    to the collaborators, which publish nothing and register nothing, and
    then one of three ends. *)
Lemma connect_paths env w :
  lobby_isOpen (lobby w) w = false ->
  exists pre w3,
    (connect env w = (PUnsettled, w3) \/
     (exists e, connect env w = (PSettled (Rejected e), rejected e w3)) \/
     (exists a, connect env w =
                (PSettled (Resolved (lobby_room a w)), connected (lobby w) a w3))) /\
    trace w3 = trace w ++ pre /\
    lobby w3 = lobby w /\ listeners w3 = listeners w /\ open w3 = open w /\
    next w3 = next w /\ cred_preparation w3 = cred_preparation w /\
    (cred_lobby w3 = cred_lobby w \/ cred_lobby w3 = None) /\
    (forall a, ~ In (EDispatch a) pre) /\
    (forall h l, ~ In (EAttach h l) pre).
Proof.
  intros Ho.
  destruct (authenticateUser_res env) as [[]|e0] eqn:Ha.
  - destruct (usable_token w) as [tok|] eqn:Hu.
    + destruct (usable_token_some w tok Hu) as (c & Hc & Ht & ->).
      destruct (reconnect_res env (cred_reconnectionToken c)) as [a|e1] eqn:Hr.
      * rewrite (connect_reconnected env w c a Ho Ha Hc Ht Hr).
        do 2 eexists. split; [right; right; eexists; reflexivity|].
        simpl. repeat split; auto; intros; intros Hin; in_events Hin.
      * rewrite (connect_failed_reconnect env w c e1 Ho Ha Hc Ht Hr).
        rewrite (steps_from_idToken 0).
        destruct (getIdToken_res env) as [idToken|e2];
          [cbv zeta; destruct (join_res env "lobby" idToken) as [a|e2]|];
          do 2 eexists;
          (split; [first [ right; right; eexists; reflexivity
                         | right; left; eexists; reflexivity ]|]);
          simpl; rewrite <- ?app_assoc; simpl;
          repeat split; auto; intros; intros Hin; in_events Hin.
    + rewrite (connect_without_token env w Ho Ha Hu).
      rewrite (steps_from_idToken 1).
      destruct (getIdToken_res env) as [idToken|e2];
        [cbv zeta; destruct (join_res env "lobby" idToken) as [a|e2]|];
        do 2 eexists;
        (split; [first [ right; right; eexists; reflexivity
                       | right; left; eexists; reflexivity ]|]);
        simpl; rewrite <- ?app_assoc; simpl;
        repeat split; auto; intros; intros Hin; in_events Hin.
  - rewrite (connect_auth_rejected env w e0 Ho Ha).
    do 2 eexists. split; [left; reflexivity|].
    simpl. repeat split; auto; intros; intros Hin; in_events Hin.
Qed.

Lemma lobby_isOpen_true w :
  lobby_isOpen (lobby w) w = true ->
  exists l, lobby w = Some l /\ isOpen (handle l) w = true.
Proof.
  unfold lobby_isOpen. destruct (lobby w) as [l|]; [|discriminate].
  intros H. exists l. split; [reflexivity|exact H].
Qed.

(** X1: when a lobby credential with a non-empty token is stored and the
    reconnection with it succeeds, [joinLobbyRoom] resolves with the room
    of the reconnection: it asks for no identity token and joins nothing,
    and right after the reconnect it runs [setup] on that room. *)
Theorem reconnect_success_skips_join env w c a :
  lobby_isOpen (lobby w) w = false ->
  authenticateUser_res env = Ok tt ->
  cred_lobby w = Some c ->
  truthy (cred_reconnectionToken c) = true ->
  reconnect_res env (cred_reconnectionToken c) = Ok a ->
  fst (connect env w) = PSettled (Resolved (lobby_room a w)) /\
  new_events w (snd (connect env w)) =
    [EAuthenticateUser; EStoreGet RECONNECTION_LOBBY;
     EReconnect (cred_reconnectionToken c);
     EDispatch (setConnectionStatus CONNECTED);
     EStoreSet RECONNECTION_LOBBY
       (mkCredential (ans_reconnectionToken a) (ans_roomId a)) 300] ++
    map (EAttach (next w)) (setup_listeners (lobby w)) ++
    [EDispatch (joinLobby (lobby_room a w))].
Proof.
  intros Ho Ha Hc Ht Hr.
  rewrite (connect_reconnected env w c a Ho Ha Hc Ht Hr).
  split; [reflexivity|]. apply new_events_app.
  unfold connected, after_calls. simpl trace. rewrite <- ?app_assoc. reflexivity.
Qed.

(** X2: when no lobby credential is stored, or the stored token is the
    empty string, [joinLobbyRoom] makes no reconnection and deletes
    nothing: after reading the store it asks for the identity token and
    joins "lobby" with it. *)
Theorem no_usable_token_joins_afresh env w idToken :
  lobby_isOpen (lobby w) w = false ->
  authenticateUser_res env = Ok tt ->
  usable_token w = None ->
  getIdToken_res env = Ok idToken ->
  exists rest,
    new_events w (snd (connect env w)) =
      [EAuthenticateUser; EStoreGet RECONNECTION_LOBBY; EUserGetIdToken;
       EJoin "lobby" idToken] ++ rest /\
    count is_reconnect rest = 0 /\
    (forall k, ~ In (EStoreDelete k) rest).
Proof.
  intros Ho Ha Hu Hg.
  rewrite (connect_without_token env w Ho Ha Hu), (steps_from_idToken 1), Hg.
  cbv zeta. destruct (join_res env "lobby" idToken) as [a|e]; eexists;
    (split; [apply new_events_app; unfold connected, rejected, after_calls, emit;
             simpl trace; rewrite <- ?app_assoc; simpl; reflexivity|]).
  - split; [reflexivity|]. intros k Hin. in_events Hin.
  - split; [apply surfaced_no_reconnect|].
    intros k Hin. unfold surfaced in Hin.
    destruct (err_message e) as [m|]; [destruct (truthy m)|]; in_events Hin.
Qed.

(** X3: when no reconnection succeeds and [user.getIdToken()] or
    [client.join] fails with [e], the promise of [joinLobbyRoom] is
    rejected with [e] and the run ends with the top-level handler on [e]
    (log, message when [e] has a non-empty one, navigation to "/"); before
    that nothing was dispatched and no listener registered; the published
    lobby, the listeners, the open connections and the preparation
    credential are as before, and the lobby credential is as before or
    deleted. *)
Theorem rejected_connect_publishes_nothing env w e :
  lobby_isOpen (lobby w) w = false ->
  authenticateUser_res env = Ok tt ->
  (forall tok a, usable_token w = Some tok -> reconnect_res env tok <> Ok a) ->
  (getIdToken_res env = Throw e \/
   exists idToken, getIdToken_res env = Ok idToken /\
                   join_res env "lobby" idToken = Throw e) ->
  fst (connect env w) = PSettled (Rejected e) /\
  exists pre,
    new_events w (snd (connect env w)) = pre ++ surfaced e /\
    (forall a, ~ In (EDispatch a) pre) /\
    (forall h l, ~ In (EAttach h l) pre) /\
    lobby (snd (connect env w)) = lobby w /\
    listeners (snd (connect env w)) = listeners w /\
    open (snd (connect env w)) = open w /\
    cred_preparation (snd (connect env w)) = cred_preparation w /\
    (cred_lobby (snd (connect env w)) = cred_lobby w \/
     cred_lobby (snd (connect env w)) = None).
Proof.
  intros Ho Ha Hrec Hfail.
  assert (Hend : forall n lobby0 w1,
            connect_steps (S (S n)) env (PAwaitIdToken lobby0) w1 =
            (PSettled (Rejected e),
             rejected e
               (match getIdToken_res env with
                | Ok idToken => snd (emit (EJoin "lobby" idToken) w1)
                | Throw _ => w1
                end))).
  { intros n lobby0 w1. rewrite steps_from_idToken.
    destruct Hfail as [Hg|(idToken & Hg & Hj)]; rewrite Hg; [reflexivity|].
    cbv zeta. rewrite Hj. reflexivity. }
  assert (Hrej : fst (connect env w) = PSettled (Rejected e)).
  { destruct (usable_token w) as [tok|] eqn:Hu.
    - destruct (usable_token_some w tok Hu) as (c & Hc & Ht & ->).
      destruct (reconnect_res env (cred_reconnectionToken c)) as [a|e1] eqn:Hr.
      { exfalso. exact (Hrec _ a eq_refl Hr). }
      rewrite (connect_failed_reconnect env w c e1 Ho Ha Hc Ht Hr), Hend. reflexivity.
    - rewrite (connect_without_token env w Ho Ha Hu), Hend. reflexivity. }
  clear Hend Hrec Hfail. split; [exact Hrej|].
  destruct (connect_paths env w Ho)
    as (pre & w3 & Hpath & Htr & Hl & Hls & Hop & _ & Hcp & Hcl & Hd & Hat).
  destruct Hpath as [E|[(e' & E)|(a & E)]]; rewrite E in *; try discriminate.
  simpl in Hrej. injection Hrej as ->. simpl snd.
  exists pre. split.
  { apply new_events_app. unfold rejected. simpl. rewrite Htr, app_assoc.
    reflexivity. }
  unfold rejected. simpl. repeat split; assumption.
Qed.

(** X4: whenever [joinLobbyRoom], not finding an open lobby, resolves
    with a room, the run ends with: CONNECTED dispatched, the credential of
    that room stored under the lobby key with a TTL of 300 seconds, the
    sixteen listeners registered on the room, and only then [joinLobby]
    dispatched; nothing is dispatched or registered before; afterwards the
    store publishes that room and holds its credential. *)
Theorem resolved_connect_publishes_last env w room w' :
  lobby_isOpen (lobby w) w = false ->
  connect env w = (PSettled (Resolved room), w') ->
  exists pre,
    new_events w w' =
      pre ++
      [EDispatch (setConnectionStatus CONNECTED);
       EStoreSet RECONNECTION_LOBBY
         (mkCredential (reconnectionToken room) (roomId room)) 300] ++
      map (EAttach (handle room)) (setup_listeners (lobby w)) ++
      [EDispatch (joinLobby room)] /\
    (forall a, ~ In (EDispatch a) pre) /\
    (forall h l, ~ In (EAttach h l) pre) /\
    lobby w' = Some room /\
    cred_lobby w' = Some (mkCredential (reconnectionToken room) (roomId room)) /\
    cred_preparation w' = cred_preparation w.
Proof.
  intros Ho Hc.
  destruct (connect_paths env w Ho)
    as (pre & w3 & Hend & Htr & Hl & Hls & Hop & Hn & Hcp & Hcl & Hd & Hat).
  destruct Hend as [E|[(e' & E)|(a & E)]]; rewrite E in Hc; try discriminate.
  injection Hc as <- <-. exists pre. split.
  { apply new_events_app. unfold connected, lobby_room. simpl.
    rewrite Htr, Hn, <- app_assoc. reflexivity. }
  unfold connected, lobby_room. simpl. rewrite Hn. repeat split; assumption.
Qed.

(** X5: in the state left by the segment in which an invocation of
    [joinLobbyRoom] resolves with a room, run alone or interleaved with
    the segments of other invocations, that room is the published lobby;
    and in any state in which that room is the published lobby and its
    connection is open, a call resolves with it and changes nothing,
    whatever the collaborators would answer. *)
Theorem connect_again_returns_published_room env env' pc w room w' :
  final pc = false ->
  connect_step env pc w = (PSettled (Resolved room), w') ->
  lobby w' = Some room /\
  forall w2,
    lobby w2 = Some room -> isOpen (handle room) w2 = true ->
    connect env' w2 = (PSettled (Resolved room), w2).
Proof.
  intros Hf Hs. split; [|intros w2 Hl Hopen; apply connect_open; assumption].
  destruct pc; try discriminate Hf; unfold connect_step in Hs.
  - destruct (lobby w) as [l|] eqn:El; [destruct (isOpen (handle l) w)|];
      try discriminate Hs.
    injection Hs as <- <-. exact El.
  - destruct (authenticateUser_res env); [|discriminate Hs].
    destruct (localStore_get RECONNECTION_LOBBY w) as [stored w1].
    destruct (reconnectionToken_of stored) as [tok|];
      [destruct (truthy tok)|]; discriminate Hs.
  - destruct (reconnect_res env reconnectToken); [|discriminate Hs].
    rewrite settle_setup in Hs. injection Hs as <- <-. reflexivity.
  - destruct (getIdToken_res env); [discriminate Hs|].
    rewrite settle_throw in Hs. discriminate Hs.
  - destruct (join_res env "lobby" idToken).
    + rewrite settle_setup in Hs. injection Hs as <- <-. reflexivity.
    + rewrite settle_throw in Hs. discriminate Hs.
Qed.

(** X6: the token stored by a resolved [joinLobbyRoom] is the one the
    next invocation presents: in any world that holds that credential and
    has no open lobby, the first network call of [joinLobbyRoom] is the
    reconnection with the reconnection token of that room. *)
Theorem stored_token_is_presented_next env env' w room w' w2 :
  lobby_isOpen (lobby w) w = false ->
  connect env w = (PSettled (Resolved room), w') ->
  truthy (reconnectionToken room) = true ->
  cred_lobby w2 = cred_lobby w' ->
  lobby_isOpen (lobby w2) w2 = false ->
  authenticateUser_res env' = Ok tt ->
  exists rest,
    new_events w2 (snd (connect env' w2)) =
      [EAuthenticateUser; EStoreGet RECONNECTION_LOBBY;
       EReconnect (reconnectionToken room)] ++ rest.
Proof.
  intros Ho Hc Ht Hcred Ho2 Ha.
  destruct (connect_resolved_fresh env w room w' Ho Hc) as (a & w0 & -> & -> & _).
  simpl in Hcred, Ht.
  set (c := mkCredential (ans_reconnectionToken a) (ans_roomId a)) in *.
  destruct (reconnect_res env' (cred_reconnectionToken c)) as [a'|e] eqn:Hr.
  - rewrite (connect_reconnected env' w2 c a' Ho2 Ha Hcred Ht Hr).
    eexists. apply new_events_app. unfold connected, after_calls. simpl trace.
    rewrite <- ?app_assoc. simpl. reflexivity.
  - rewrite (connect_failed_reconnect env' w2 c e Ho2 Ha Hcred Ht Hr).
    rewrite (steps_from_idToken 0).
    destruct (getIdToken_res env') as [idToken|e2];
      [cbv zeta; destruct (join_res env' "lobby" idToken) as [a'|e2]|];
      eexists; apply new_events_app; unfold connected, rejected, emit; simpl trace;
      rewrite <- ?app_assoc; simpl; reflexivity.
Qed.

Lemma step_pending_quiet env pc w :
  final (fst (connect_step env pc w)) = false ->
  listeners (snd (connect_step env pc w)) = listeners w /\
  next (snd (connect_step env pc w)) = next w /\
  exists evs,
    trace (snd (connect_step env pc w)) = trace w ++ evs /\
    (forall a, ~ In (EDispatch a) evs) /\
    (forall h l, ~ In (EAttach h l) evs).
Proof.
  destruct pc; unfold connect_step; try discriminate.
  - destruct (lobby w) as [l|] eqn:El; [destruct (isOpen (handle l) w)|];
      simpl; try discriminate; intros _; repeat split;
      eexists; (split; [reflexivity|]); split; intros; intros Hin; in_events Hin.
  - destruct (authenticateUser_res env); simpl; try discriminate.
    unfold suspend, emit. simpl.
    destruct (cred_lobby w) as [c|]; simpl;
      [destruct (truthy (cred_reconnectionToken c))|]; intros _; repeat split;
      eexists; (split; [rewrite <- ?app_assoc; reflexivity|]);
      split; intros; intros Hin; in_events Hin.
  - destruct (reconnect_res env reconnectToken).
    + rewrite settle_setup. discriminate.
    + intros _. unfold suspend, localStore_delete, set_cred, emit. simpl.
      repeat split. eexists. split; [rewrite <- ?app_assoc; reflexivity|].
      split; intros; intros Hin; in_events Hin.
  - destruct (getIdToken_res env).
    + intros _. unfold suspend, emit. simpl. repeat split.
      eexists. split; [reflexivity|]. split; intros; intros Hin; in_events Hin.
    + rewrite settle_throw. discriminate.
  - destruct (join_res env "lobby" idToken).
    + rewrite settle_setup. discriminate.
    + rewrite settle_throw. discriminate.
Qed.

Lemma steps_pending_quiet n env pc w :
  final (fst (connect_steps n env pc w)) = false ->
  listeners (snd (connect_steps n env pc w)) = listeners w /\
  next (snd (connect_steps n env pc w)) = next w /\
  exists evs,
    trace (snd (connect_steps n env pc w)) = trace w ++ evs /\
    (forall a, ~ In (EDispatch a) evs) /\
    (forall h l, ~ In (EAttach h l) evs).
Proof.
  revert pc w. induction n as [|n IH]; intros pc w Hf.
  - repeat split. exists []. rewrite app_nil_r.
    repeat split; intros; intros Hin; destruct Hin.
  - rewrite connect_steps_S in *.
    destruct (IH _ _ Hf) as (Hls & Hn & evs2 & Ht2 & Hd2 & Ha2).
    destruct (steps_pending_frame n env _ _ Hf) as (_ & _ & Hf1).
    destruct (step_pending_quiet env pc w Hf1) as (Hls1 & Hn1 & evs1 & Ht1 & Hd1 & Ha1).
    repeat split; try congruence.
    exists (evs1 ++ evs2). rewrite Ht2, Ht1, <- app_assoc.
    repeat split; intros; intros Hin; apply in_app_or in Hin; destruct Hin as [Hin|Hin].
    + exact (Hd1 _ Hin).
    + exact (Hd2 _ Hin).
    + exact (Ha1 _ _ Hin).
    + exact (Ha2 _ _ Hin).
Qed.

(** X7: as long as an invocation of [joinLobbyRoom] is pending, after any
    number of its segments, it has published no lobby, opened no
    connection, registered no listener and dispatched nothing. *)
Theorem pending_invocation_publishes_nothing n env w :
  final (fst (connect_steps n env PStart w)) = false ->
  lobby (snd (connect_steps n env PStart w)) = lobby w /\
  open (snd (connect_steps n env PStart w)) = open w /\
  listeners (snd (connect_steps n env PStart w)) = listeners w /\
  (forall a, ~ In (EDispatch a) (new_events w (snd (connect_steps n env PStart w)))) /\
  (forall h l,
     ~ In (EAttach h l) (new_events w (snd (connect_steps n env PStart w)))).
Proof.
  intros Hf.
  destruct (steps_pending_frame n env PStart w Hf) as (Hl & Ho & _).
  destruct (steps_pending_quiet n env PStart w Hf) as (Hls & _ & evs & Ht & Hd & Ha).
  rewrite (new_events_app _ _ _ Ht). repeat split; assumption.
Qed.

(** ** The transition, whatever the collaborators answer *)

Section TransitionFurther.

Variable X : Externals.

Lemma transition_returns_and_frames te roomId_ lobby0 w :
  fst (joinExistingPreparationRoom X te roomId_ lobby0 w) = Ok tt /\
  lobby (snd (joinExistingPreparationRoom X te roomId_ lobby0 w)) = lobby w /\
  cred_lobby (snd (joinExistingPreparationRoom X te roomId_ lobby0 w)) = cred_lobby w /\
  listeners (snd (joinExistingPreparationRoom X te roomId_ lobby0 w)) = listeners w.
Proof.
  unfold joinExistingPreparationRoom, try_catch, transition_body, transition_catch.
  munfold. break_match. all: repeat split.
Qed.

(** X9: whatever the collaborators answer, [joinExistingPreparationRoom]
    returns normally (every error is handled by its [catch]), and it never
    changes the published lobby, the lobby credential or the listeners. *)
Theorem transition_never_rejects te roomId_ lobby0 w :
  fst (joinExistingPreparationRoom X te roomId_ lobby0 w) = Ok tt /\
  lobby (snd (joinExistingPreparationRoom X te roomId_ lobby0 w)) = lobby w /\
  cred_lobby (snd (joinExistingPreparationRoom X te roomId_ lobby0 w)) = cred_lobby w /\
  listeners (snd (joinExistingPreparationRoom X te roomId_ lobby0 w)) = listeners w.
Proof.
  unfold joinExistingPreparationRoom, try_catch, transition_body, transition_catch.
  munfold. break_match. all: repeat split.
Qed.

(** X10: when no user is signed in, or the identity token is the empty
    string, [joinExistingPreparationRoom] does nothing but the call for the
    token: no dispatch, no join, no navigation, no credential stored. *)
Theorem transition_without_token_is_silent te roomId_ lobby0 w :
  (forall e, currentUser te <> Some (Throw e)) ->
  (forall token, currentUser te = Some (Ok token) -> truthy token = false) ->
  (forall ev,
     In ev (new_events w (snd (joinExistingPreparationRoom X te roomId_ lobby0 w))) ->
     ev = ECurrentUserGetIdToken) /\
  cred_preparation (snd (joinExistingPreparationRoom X te roomId_ lobby0 w)) =
    cred_preparation w /\
  open (snd (joinExistingPreparationRoom X te roomId_ lobby0 w)) = open w /\
  next (snd (joinExistingPreparationRoom X te roomId_ lobby0 w)) = next w.
Proof.
  intros Hno Hfalsy.
  unfold joinExistingPreparationRoom, try_catch, transition_body. munfold.
  destruct (currentUser te) as [[token|e]|] eqn:Hu; simpl.
  - rewrite (Hfalsy token eq_refl). simpl. repeat split.
    intros ev Hin. erewrite new_events_app in Hin by (simpl; reflexivity).
    in_events Hin.
  - exfalso. exact (Hno e eq_refl).
  - repeat split. intros ev Hin.
    rewrite (new_events_app w w [] (eq_sym (app_nil_r _))) in Hin. destruct Hin.
Qed.

(** X11: when the join by id fails with [e], the transition has already
    dispatched [resetPreparation] and then does one thing only: when [e]
    carries a non-zero code that the table knows it dispatches the
    translated message, otherwise (no code, code 0, unknown code) it logs
    [e]; it stores no credential, leaves no room and does not navigate. *)
Theorem failed_join_is_classified te roomId_ lobby0 w token e :
  currentUser te = Some (Ok token) ->
  truthy token = true ->
  joinById_res te roomId_ token = Throw e ->
  exists last,
    new_events w (snd (joinExistingPreparationRoom X te roomId_ lobby0 w)) =
      [ECurrentUserGetIdToken; EDispatch resetPreparation; EJoinById roomId_ token;
       last] /\
    (forall c m,
       err_code e = Some c -> c <> 0%Z -> CloseCodesMessages X c = Some m ->
       last = EDispatch (setErrorAlertMessage (t X ("errors." ++ m)%string))) /\
    (err_code e = None \/ err_code e = Some 0%Z \/
     (exists c, err_code e = Some c /\ CloseCodesMessages X c = None) ->
     last = ELogError e) /\
    cred_preparation (snd (joinExistingPreparationRoom X te roomId_ lobby0 w)) =
      cred_preparation w /\
    open (snd (joinExistingPreparationRoom X te roomId_ lobby0 w)) = open w /\
    next (snd (joinExistingPreparationRoom X te roomId_ lobby0 w)) = next w.
Proof.
  intros Hu Ht Hj.
  unfold joinExistingPreparationRoom, try_catch, transition_body, transition_catch.
  munfold. rewrite Hu. simpl. rewrite Ht. simpl. rewrite Hj. simpl.
  destruct (err_code e) as [c|] eqn:Hc; simpl;
    [destruct (Z.eqb_spec c 0) as [->|Hz]; simpl;
     [|destruct (CloseCodesMessages X c) as [m|] eqn:Hm; simpl]|];
    eexists;
    (split; [apply new_events_app; simpl; rewrite <- ?app_assoc; reflexivity|]);
    repeat split.
  all: try (intros c' m' E1 E2 E3; congruence).
  all: try (intros [E|[E|(c' & E1 & E2)]]; congruence).
Qed.

End TransitionFurther.

(** ** Delivery of events to the callbacks *)

Lemma forEach_inv {A} (R : World -> World -> Prop) (xs : list A) (f : A -> M unit) :
  (forall w, R w w) ->
  (forall w1 w2 w3, R w1 w2 -> R w2 w3 -> R w1 w3) ->
  (forall x w, In x xs -> fst (f x w) = Ok tt /\ R w (snd (f x w))) ->
  forall w, fst (forEach xs f w) = Ok tt /\ R w (snd (forEach xs f w)).
Proof.
  intros Hrefl Htrans. induction xs as [|x xs IH]; intros Hf w.
  - split; [reflexivity|apply Hrefl].
  - simpl. unfold bind.
    destruct (Hf x w (or_introl eq_refl)) as (H1 & H2).
    destruct (f x w) as [r w1]. simpl in H1, H2. subst r.
    destruct (IH (fun y w' Hy => Hf y w' (or_intror Hy)) w1) as (H3 & H4).
    split; [exact H3|]. exact (Htrans _ _ _ H2 H4).
Qed.

Lemma informs_refl w : informs w w.
Proof.
  split; [repeat split|]. exists []. rewrite app_nil_r. split; reflexivity.
Qed.

Lemma informs_trans w1 w2 w3 : informs w1 w2 -> informs w2 w3 -> informs w1 w3.
Proof.
  intros ((A1 & A2 & A3 & A4 & A5 & A6) & e1 & T1 & F1)
         ((B1 & B2 & B3 & B4 & B5 & B6) & e2 & T2 & F2).
  split; [repeat split; congruence|].
  exists (e1 ++ e2). rewrite T2, T1, <- app_assoc, forallb_app, F1, F2.
  split; reflexivity.
Qed.

Lemma registers_on_refl h w : registers_on h w w.
Proof. exists []. simpl. rewrite app_nil_r. reflexivity. Qed.

Lemma registers_on_trans h w1 w2 w3 :
  registers_on h w1 w2 -> registers_on h w2 w3 -> registers_on h w1 w3.
Proof.
  intros (a1 & H1) (a2 & H2). exists (a1 ++ a2).
  rewrite H2, H1, map_app, app_assoc. reflexivity.
Qed.

Lemma dispatch_informs a w :
  (forall r, a <> joinLobby r) ->
  fst (dispatch a w) = Ok tt /\ informs w (snd (dispatch a w)).
Proof.
  intros Hn. split; [reflexivity|].
  destruct a; try (exfalso; exact (Hn _ eq_refl));
    (split; [repeat split|eexists; split; [simpl; reflexivity|reflexivity]]).
Qed.

Lemma informs_registers h w w' : informs w w' -> registers_on h w w'.
Proof.
  intros ((_ & _ & _ & _ & _ & Hl) & _). exists []. simpl.
  rewrite app_nil_r. exact Hl.
Qed.

Section CallbackFurther.

Variable X : Externals.

Lemma on_message_informs te lobby0 m w :
  tag_of m <> REQUEST_ROOM ->
  fst (on_message X te lobby0 m w) = Ok tt /\
  informs w (snd (on_message X te lobby0 m w)).
Proof.
  intros Hm. destruct m; cbv [on_message].
  - split; [reflexivity|]. split; [repeat split|].
    exists [EAlert message]. split; reflexivity.
  - apply (forEach_inv informs); [apply informs_refl|apply informs_trans|].
    intros room w' _. apply dispatch_informs. discriminate.
  - exfalso. apply Hm. reflexivity.
  - unfold when. destruct (_ || _); [apply dispatch_informs; discriminate|].
    split; [reflexivity|apply informs_refl].
  - apply dispatch_informs; discriminate.
  - apply dispatch_informs; discriminate.
  - apply dispatch_informs; discriminate.
  - apply dispatch_informs; discriminate.
  - apply dispatch_informs; discriminate.
  - apply dispatch_informs; discriminate.
Qed.

(** X13: a message of any tag but [REQUEST_ROOM], on a room with any
    listeners, only dispatches to the state store or alerts the user:
    nothing is stored, joined, left, registered or navigated to, and the
    world but for the trace is unchanged. *)
Theorem other_messages_only_inform te h m w :
  tag_of m <> REQUEST_ROOM ->
  fst (deliver X te h (SMessage m) w) = Ok tt /\
  informs w (snd (deliver X te h (SMessage m) w)).
Proof.
  intros Hm. unfold deliver.
  apply (forEach_inv informs); [apply informs_refl|apply informs_trans|].
  intros l w' _.
  assert (Hret : fst (ret tt w') = Ok tt /\ informs w' (snd (ret tt w')))
    by (split; [reflexivity|apply informs_refl]).
  destruct l; cbv [callback];
    try lazymatch goal with
        | |- fst (ret tt _) = _ /\ _ => exact Hret
        | _ => idtac
        end.
  unfold when. destruct (Transfer_eqb tag (tag_of m)); [|exact Hret].
  apply on_message_informs. exact Hm.
Qed.

Lemma callback_registers te h l ev w :
  fst (callback X te h l ev w) = Ok tt /\
  registers_on h w (snd (callback X te h l ev w)).
Proof.
  assert (Hd : forall a w0, (forall r, a <> joinLobby r) ->
                 fst (dispatch a w0) = Ok tt /\ registers_on h w0 (snd (dispatch a w0))).
  { intros a w0 Ha. destruct (dispatch_informs a w0 Ha) as (H1 & H2).
    split; [exact H1|apply informs_registers; exact H2]. }
  assert (Hw : forall (b : bool) (m : M unit) w0,
                 (fst (m w0) = Ok tt /\ registers_on h w0 (snd (m w0))) ->
                 fst (when b m w0) = Ok tt /\ registers_on h w0 (snd (when b m w0))).
  { intros b m w0 Hm. destruct b; simpl; [exact Hm|].
    split; [reflexivity|apply registers_on_refl]. }
  assert (Hret : fst (ret tt w) = Ok tt /\ registers_on h w (snd (ret tt w)))
    by (split; [reflexivity|apply registers_on_refl]).
  destruct l; destruct ev; cbv [callback];
    try lazymatch goal with
        | |- fst (ret tt _) = _ /\ _ => exact Hret
        | |- fst (when _ _ _) = _ /\ _ => apply Hw
        | _ => idtac
        end;
    try lazymatch goal with
        | |- fst (dispatch _ _) = _ /\ _ => apply Hd; discriminate
        | _ => idtac
        end.
  - (* onLeave *)
    unfold onLeave. munfold.
    destruct (shouldGoToLoginPage X (location_pathname te) code); simpl;
      [destruct (CloseCodesMessages X code) as [m|]; simpl;
       [destruct (truthy m); simpl|]|];
      (split; [reflexivity|]); exists []; simpl; rewrite app_nil_r; reflexivity.
  - (* tournaments.onAdd *)
    split; [reflexivity|].
    match goal with
    | |- context [on_tournament_add h ?x w] => exists (tournament_listeners x)
    end.
    run_callbacks. simpl. rewrite <- ?app_assoc. reflexivity.
  - (* players.onAdd *)
    split; [reflexivity|].
    match goal with
    | |- context [on_player_add h ?x ?p ?u w] =>
        exists [player_listen x p u "eliminated"]
    end.
    run_callbacks. simpl. reflexivity.
  - (* brackets.onAdd *)
    split; [reflexivity|].
    match goal with
    | |- context [on_bracket_add h ?x ?b ?i w] =>
        exists [bracket_listen x b i "name"; bracket_listen x b i "finished";
                bracket_playersId_onChange x b i]
    end.
    run_callbacks. simpl. rewrite <- ?app_assoc. reflexivity.
  - (* onMessage *)
    destruct m; cbv [on_message];
      try (apply Hd; discriminate).
    + split; [reflexivity|]. exists []. simpl. rewrite app_nil_r. reflexivity.
    + apply (forEach_inv (registers_on h));
        [apply registers_on_refl|apply registers_on_trans|].
      intros room w' _. apply Hd. discriminate.
    + match goal with
      | |- context [joinExistingPreparationRoom X te ?r ?l w] =>
          destruct (transition_returns_and_frames X te r l w) as (H1 & _ & _ & H2)
      end.
      split; [exact H1|]. exists []. simpl. rewrite app_nil_r. exact H2.
    + apply Hw. apply Hd. discriminate.
Qed.

(** X12: whatever event is delivered to a room, no callback throws and
    no listener is ever taken away: the listeners afterwards are those of
    before followed by new ones on that same room. *)
Theorem deliver_never_unregisters te h ev w :
  fst (deliver X te h ev w) = Ok tt /\
  registers_on h w (snd (deliver X te h ev w)).
Proof.
  unfold deliver.
  apply (forEach_inv (registers_on h));
    [apply registers_on_refl|apply registers_on_trans|].
  intros l w' _. apply callback_registers.
Qed.

End CallbackFurther.

(** ** The handlers on a room set up by [joinLobbyRoom] *)

Lemma addRoom_each_trace rooms w :
  trace (snd (forEach rooms (fun room => dispatch (addRoom room)) w)) =
  trace w ++ map (fun room => EDispatch (addRoom room)) rooms.
Proof.
  revert w. induction rooms as [|room rooms IH]; intros w; simpl.
  - rewrite app_nil_r. reflexivity.
  - unfold bind. simpl. rewrite IH. simpl. rewrite <- app_assoc. reflexivity.
Qed.

Section HandlersFurther.

Variable X : Externals.

(** On a room that carries the listeners of [setup], a message is handled
    by the handler of its tag and by no other. *)
Lemma deliver_message te h lobby0 m w :
  listening h w = setup_listeners lobby0 ->
  snd (deliver X te h (SMessage m) w) = snd (on_message X te lobby0 m w).
Proof.
  intros H. unfold deliver. rewrite H. unfold setup_listeners. simpl app.
  destruct m; run_handlers;
    match goal with
    | |- context [on_message X te lobby0 ?m w] =>
        destruct (on_message X te lobby0 m w) as [[u|e] w1]; reflexivity
    end.
Qed.

(** X14: on a room set up by [joinLobbyRoom], a [ROOMS] message
    dispatches [addRoom] for every room of the list, in the order of the
    list, and nothing else. *)
Theorem rooms_message_adds_every_room te h lobby0 rooms w :
  listening h w = setup_listeners lobby0 ->
  new_events w (snd (deliver X te h (SMessage (MRooms rooms)) w)) =
    map (fun room => EDispatch (addRoom room)) rooms.
Proof.
  intros H. rewrite (deliver_message te h lobby0 _ w H).
  apply new_events_app. cbv [on_message]. apply addRoom_each_trace.
Qed.

(** X15: on a room set up by [joinLobbyRoom], an [ADD_ROOM] message
    dispatches [addRoom] once when the room is a "preparation" or a "game"
    room, and does nothing for any other kind. *)
Theorem add_room_message_is_filtered te h lobby0 room w :
  listening h w = setup_listeners lobby0 ->
  (ra_name room = "preparation" \/ ra_name room = "game" ->
   new_events w (snd (deliver X te h (SMessage (MAddRoom room)) w)) =
     [EDispatch (addRoom room)]) /\
  (ra_name room <> "preparation" -> ra_name room <> "game" ->
   new_events w (snd (deliver X te h (SMessage (MAddRoom room)) w)) = []).
Proof.
  intros H. rewrite (deliver_message te h lobby0 _ w H). cbv [on_message when].
  split.
  - intros Hn.
    assert (E : (ra_name room =? "preparation")%string ||
                (ra_name room =? "game")%string = true).
    { apply orb_true_iff. rewrite !String.eqb_eq. exact Hn. }
    rewrite E. apply new_events_app. reflexivity.
  - intros H1 H2. apply String.eqb_neq in H1, H2. rewrite H1, H2. simpl.
    apply new_events_app. symmetry. apply app_nil_r.
Qed.

End HandlersFurther.

(** ** The registry of a room along its history *)

Lemma same_neq x l : x <> l -> same x l = false.
Proof. unfold same. destruct (Listener_eq_dec x l); congruence. Qed.

Lemma same_true x l : same x l = true -> x = l.
Proof. unfold same. destruct (Listener_eq_dec x l); congruence. Qed.

Lemma grow_nil h w : grow h [] [] w = w.
Proof. destruct w. unfold grow. simpl. rewrite !app_nil_r. reflexivity. Qed.

Lemma grow_grow h r1 e1 r2 e2 w :
  grow h r2 e2 (grow h r1 e1 w) = grow h (r1 ++ r2) (e1 ++ e2) w.
Proof. unfold grow. simpl. rewrite map_app, <- !app_assoc. reflexivity. Qed.

Lemma flat_map_nil {A B} (f : A -> list B) (l : list A) :
  (forall x, f x = []) -> flat_map f l = [].
Proof.
  intros H. induction l as [|x l IH]; simpl; [reflexivity|].
  rewrite H, IH. reflexivity.
Qed.

Lemma flat_map_filter {A B} (p : A -> bool) (f : A -> list B) (l : list A) :
  (forall x, p x = false -> f x = []) -> flat_map f l = flat_map f (filter p l).
Proof.
  intros H. induction l as [|x l IH]; simpl; [reflexivity|].
  destruct (p x) eqn:E; simpl; rewrite IH; [reflexivity|].
  rewrite (H x E). reflexivity.
Qed.

Lemma flat_map_repeat {A B} (p : A -> bool) (f : A -> list B) (pat : list B) (l : list A) :
  (forall x, f x = if p x then pat else []) ->
  flat_map f l = List.concat (repeat pat (count p l)).
Proof.
  intros H. unfold count. induction l as [|x l IH]; simpl; [reflexivity|].
  rewrite H. destruct (p x); simpl; rewrite IH; reflexivity.
Qed.

Lemma filter_flat_map_nil {A B} (p : B -> bool) (f : A -> list B) (l : list A) :
  (forall x, filter p (f x) = []) -> filter p (flat_map f l) = [].
Proof.
  intros H. induction l as [|x l IH]; simpl; [reflexivity|].
  rewrite filter_app, H, IH. reflexivity.
Qed.

Lemma count_flat_map {A B} (p : B -> bool) (q : A -> bool) (f : A -> list B) (k : nat)
    (l : list A) :
  (forall x, q x = false -> count p (f x) = 0) ->
  (forall x, q x = true -> count p (f x) = k) ->
  count p (flat_map f l) = count q l * k.
Proof.
  intros H0 H1. induction l as [|x l IH]; simpl; [reflexivity|].
  rewrite count_app, IH. unfold count at 3. simpl.
  destruct (q x) eqn:E; simpl.
  - rewrite (H1 x E). reflexivity.
  - rewrite (H0 x E). reflexivity.
Qed.

Lemma listening_pairs h' h ls :
  map snd (filter (fun hl : nat * Listener => Nat.eqb h' (fst hl)) (map (pair h) ls)) =
  if Nat.eqb h' h then ls else [].
Proof.
  induction ls as [|l ls IH]; simpl; [destruct (Nat.eqb h' h); reflexivity|].
  destruct (Nat.eqb h' h); simpl; rewrite IH; reflexivity.
Qed.

Lemma steps_app X ss1 ss2 w : steps X (ss1 ++ ss2) w = steps X ss2 (steps X ss1 w).
Proof. unfold steps. apply fold_left_app. Qed.

Lemma count_zero {A} (p : A -> bool) (l : list A) :
  count p l = 0 -> forall x, In x l -> p x = false.
Proof.
  unfold count. induction l as [|y l IH]; simpl; intros H x Hin; [destruct Hin|].
  destruct (p y) eqn:E; [discriminate H|].
  destruct Hin as [<-|Hin]; [exact E|apply IH; assumption].
Qed.

Lemma concat_repeat_nil {A} (n : nat) : List.concat (repeat (@nil A) n) = [].
Proof. induction n as [|n IH]; simpl; [reflexivity|exact IH]. Qed.

Lemma concat_repeat_one {A} (x : A) (n : nat) : List.concat (repeat [x] n) = repeat x n.
Proof. induction n as [|n IH]; simpl; [reflexivity|rewrite IH; reflexivity]. Qed.

Lemma steps_snoc X ss s w : steps X (ss ++ [s]) w = step X s (steps X ss w).
Proof. unfold steps. rewrite fold_left_app. reflexivity. Qed.

Lemma adds_snoc h t ss s :
  adds h t (ss ++ [s]) = adds h t ss + (if is_tournament_add h t s then 1 else 0).
Proof.
  unfold adds. rewrite count_app. unfold count at 2. simpl.
  destruct (is_tournament_add h t s); reflexivity.
Qed.

Section RegistryProperties.

Variable X : Externals.

(** A callback called with an event of the synchronized state makes the
    calls of [reaction] and registers the closures of [registered]. *)
Lemma callback_structural te h l ev w :
  is_structural ev = true ->
  callback X te h l ev w = (Ok tt, grow h (registered l ev) (reaction h l ev) w).
Proof.
  intros Hs.
  destruct l, ev; try discriminate Hs; cbv [callback registered reaction when];
    repeat match goal with
           | |- context [if ?b then _ else _] => destruct b
           end;
    run_callbacks; unfold grow, tournament_listeners; simpl;
    rewrite ?app_nil_r, <- ?app_assoc; try reflexivity;
    destruct w; reflexivity.
Qed.

Lemma forEach_grow h (f : Listener -> M unit) regs evs ls :
  (forall l w, f l w = (Ok tt, grow h (regs l) (evs l) w)) ->
  forall w, forEach ls f w = (Ok tt, grow h (flat_map regs ls) (flat_map evs ls) w).
Proof.
  intros Hf. induction ls as [|l ls IH]; intros w; simpl.
  - unfold ret. rewrite grow_nil. reflexivity.
  - unfold bind. rewrite Hf, IH, grow_grow. reflexivity.
Qed.

Lemma deliver_structural te h ev w :
  is_structural ev = true ->
  deliver X te h ev w =
  (Ok tt, grow h (flat_map (fun l => registered l ev) (listening h w))
                 (flat_map (fun l => reaction h l ev) (listening h w)) w).
Proof.
  intros Hs. unfold deliver. apply forEach_grow.
  intros l w0. apply callback_structural. exact Hs.
Qed.

Lemma registered_quiet l ev : is_structural ev = false -> registered l ev = [].
Proof. intros H. destruct l, ev; try discriminate H; reflexivity. Qed.

Lemma transition_next te roomId_ lobby0 w :
  next w <= next (snd (joinExistingPreparationRoom X te roomId_ lobby0 w)).
Proof.
  unfold joinExistingPreparationRoom, try_catch, transition_body, transition_catch.
  munfold. break_match. all: simpl; lia.
Qed.

Lemma callback_quiet te h l ev w :
  is_structural ev = false ->
  fst (callback X te h l ev w) = Ok tt /\
  listeners (snd (callback X te h l ev w)) = listeners w /\
  next w <= next (snd (callback X te h l ev w)).
Proof.
  intros Hs.
  assert (Hret : fst (ret tt w) = Ok tt /\ listeners (snd (ret tt w)) = listeners w /\
                 next w <= next (snd (ret tt w))) by (repeat split; simpl; lia).
  destruct ev; try discriminate Hs; destruct l; cbv [callback];
    try lazymatch goal with
        | |- fst (ret tt _) = _ /\ _ => exact Hret
        | _ => idtac
        end.
  - unfold onLeave. munfold.
    destruct (shouldGoToLoginPage X (location_pathname te) code); simpl;
      [destruct (CloseCodesMessages X code) as [m|]; simpl;
       [destruct (truthy m); simpl|]|];
      repeat split; lia.
  - unfold when. destruct (Transfer_eqb tag (tag_of m)); [|exact Hret].
    destruct (Transfer_eqb (tag_of m) REQUEST_ROOM) eqn:Et.
    + destruct m; try discriminate Et. cbv [on_message].
      match goal with
      | |- context [joinExistingPreparationRoom X te ?r ?l w] =>
          destruct (transition_returns_and_frames X te r l w) as (H1 & _ & _ & H2)
      end.
      split; [exact H1|]. split; [exact H2|apply transition_next].
    + match goal with
      | |- context [on_message X te ?l m w] =>
          destruct (on_message_informs X te l m w)
            as (H1 & (_ & _ & _ & _ & H2 & H3) & _)
      end.
      { intros E. rewrite E in Et. discriminate Et. }
      split; [exact H1|]. split; [exact H3|lia].
Qed.

Lemma deliver_quiet te h ev w :
  is_structural ev = false ->
  listeners (snd (deliver X te h ev w)) = listeners w /\
  next w <= next (snd (deliver X te h ev w)).
Proof.
  intros Hs. unfold deliver.
  apply (forEach_inv (fun w w' => listeners w' = listeners w /\ next w <= next w')).
  - intros w0. split; [reflexivity|lia].
  - intros w1 w2 w3 (A1 & A2) (B1 & B2). split; [congruence|lia].
  - intros l w0 _. apply callback_quiet. exact Hs.
Qed.

(** What a delivery to the room [h] does to the registry of a room [h']. *)
Lemma deliver_listening te h ev w h' :
  listening h' (snd (deliver X te h ev w)) =
    listening h' w ++
    (if Nat.eqb h' h then flat_map (fun l => registered l ev) (listening h w) else []) /\
  next w <= next (snd (deliver X te h ev w)).
Proof.
  destruct (is_structural ev) eqn:Hs.
  - rewrite (deliver_structural te h ev w Hs). simpl snd. split; [|simpl; lia].
    unfold grow, listening at 1. simpl listeners.
    rewrite filter_app, map_app, listening_pairs. reflexivity.
  - destruct (deliver_quiet te h ev w Hs) as (H1 & H2). split; [|exact H2].
    unfold listening at 1. rewrite H1.
    rewrite (flat_map_nil (fun l => registered l ev))
      by (intros l; apply registered_quiet; exact Hs).
    destruct (Nat.eqb h' h); rewrite app_nil_r; reflexivity.
Qed.

Lemma connect_step_listening env pc w h' :
  h' < next w ->
  listening h' (snd (connect_step env pc w)) = listening h' w /\
  next w <= next (snd (connect_step env pc w)).
Proof.
  intros Hlt.
  assert (Hset : forall lobby0 a,
            listening h' (connected lobby0 a w) = listening h' w /\
            next w <= next (connected lobby0 a w)).
  { intros lobby0 a. split; [|simpl; lia].
    unfold listening at 1. unfold connected. cbv beta iota delta [listeners].
    rewrite filter_app, map_app, listening_pairs.
    destruct (Nat.eqb_spec h' (next w)); [lia|]. apply app_nil_r. }
  destruct pc; unfold connect_step.
  - destruct (lobby w) as [l|]; [destruct (isOpen (handle l) w)|]; simpl;
      split; (reflexivity || lia).
  - destruct (authenticateUser_res env); simpl; [|split; (reflexivity || lia)].
    unfold suspend, emit. simpl.
    destruct (cred_lobby w) as [c|]; simpl;
      [destruct (truthy (cred_reconnectionToken c))|]; split; (reflexivity || simpl; lia).
  - destruct (reconnect_res env reconnectToken).
    + rewrite settle_setup. apply Hset.
    + unfold suspend, localStore_delete, set_cred, emit. simpl.
      split; (reflexivity || lia).
  - destruct (getIdToken_res env); [|rewrite settle_throw];
      unfold suspend, emit, rejected; simpl; split; (reflexivity || lia).
  - destruct (join_res env "lobby" idToken).
    + rewrite settle_setup. apply Hset.
    + rewrite settle_throw. unfold rejected. simpl. split; (reflexivity || lia).
  - simpl. split; (reflexivity || lia).
  - simpl. split; (reflexivity || lia).
Qed.

Lemma step_listening h s w :
  h < next w ->
  listening h (step X s w) = listening h w ++ added h s (listening h w) /\
  h < next (step X s w).
Proof.
  intros Hlt. destruct s as [te h' ev|env pc]; simpl.
  - destruct (deliver_listening te h' ev w h) as (H1 & H2). split; [|lia].
    rewrite H1. destruct (Nat.eqb_spec h h'); [subst h'|]; reflexivity.
  - destruct (connect_step_listening env pc w h Hlt) as (H1 & H2).
    rewrite H1, app_nil_r. split; [reflexivity|lia].
Qed.

Lemma steps_next h ss w : h < next w -> h < next (steps X ss w).
Proof.
  intros Hlt. induction ss as [|s ss IH] using rev_ind; [exact Hlt|].
  rewrite steps_snoc. apply step_listening. exact IH.
Qed.

(** Closures of a kind that no step of the history registers are, on a
    room, those that were there at the start. *)
Lemma steps_keep_when (p : Listener -> bool) h ss w :
  (forall s, In s ss -> forall ls, filter p (added h s ls) = []) ->
  h < next w ->
  filter p (listening h (steps X ss w)) = filter p (listening h w).
Proof.
  intros Hp Hlt. induction ss as [|s ss IH] using rev_ind; [reflexivity|].
  rewrite steps_snoc.
  destruct (step_listening h s (steps X ss w) (steps_next h ss w Hlt)) as (H1 & _).
  rewrite H1, filter_app, IH.
  - rewrite (Hp s) by (apply in_or_app; right; left; reflexivity). apply app_nil_r.
  - intros s0 Hin. apply Hp. apply in_or_app. left. exact Hin.
Qed.

Lemma steps_keep (p : Listener -> bool) h ss w :
  (forall l ev, filter p (registered l ev) = []) ->
  h < next w ->
  filter p (listening h (steps X ss w)) = filter p (listening h w).
Proof.
  intros Hp Hlt. apply steps_keep_when; [|exact Hlt].
  intros s _ ls. destruct s as [te h' ev|env pc]; simpl; [|reflexivity].
  destruct (Nat.eqb h h'); [|reflexivity].
  apply filter_flat_map_nil. intros l. apply Hp.
Qed.

(** A closure that only the callback of [tournaments.onAdd] registers,
    [c] times for the tournament [t], is registered [c] times for every
    time [t] was added. *)
Lemma steps_count (x : Listener) (t : Ref) (c : nat) h ss w :
  (forall l ev, same tournaments_onAdd l = false -> count (same x) (registered l ev) = 0) ->
  (forall t', count (same x) (tournament_listeners t') = if Nat.eqb t' t then c else 0) ->
  h < next w ->
  count (same tournaments_onAdd) (listening h w) = 1 ->
  count (same x) (listening h w) = 0 ->
  count (same x) (listening h (steps X ss w)) = adds h t ss * c.
Proof.
  intros Hreg Ht Hlt H1 H0. induction ss as [|s ss IH] using rev_ind; [exact H0|].
  rewrite steps_snoc, adds_snoc.
  destruct (step_listening h s (steps X ss w) (steps_next h ss w Hlt)) as (E & _).
  rewrite E, count_app, IH.
  assert (Hone : count (same tournaments_onAdd) (listening h (steps X ss w)) = 1).
  { unfold count. rewrite steps_keep; [exact H1| |exact Hlt].
    intros l ev. destruct l, ev; try reflexivity; simpl;
      destruct (Nat.eqb _ _); reflexivity. }
  destruct s as [te h' ev|env pc]; simpl; [|unfold count; simpl; lia].
  rewrite (Nat.eqb_sym h h').
  destruct (Nat.eqb h' h) eqn:Eh; simpl; [|destruct ev; unfold count; simpl; lia].
  rewrite (count_flat_map (same x) (same tournaments_onAdd)
             (fun l => registered l ev)
             (count (same x) (registered tournaments_onAdd ev))).
  - rewrite Hone. destruct ev; simpl; try (unfold count; simpl; lia).
    rewrite Ht. destruct (Nat.eqb t0 t); unfold count; simpl; lia.
  - intros l Hl. apply Hreg. exact Hl.
  - intros l Hl. apply same_true in Hl. subst l. reflexivity.
Qed.

End RegistryProperties.

Section ProjectorHistory.

Variable X : Externals.

(** On a room set up by [joinLobbyRoom], after any history, a closure
    that the callback of [tournaments.onAdd] registers once for the
    tournament [t] is registered as many times as [t] was added. *)
Lemma steps_count_tournament (x : Listener) (t : Ref) (c : nat) h lobby0 ss w :
  (forall l ev, same tournaments_onAdd l = false -> count (same x) (registered l ev) = 0) ->
  (forall t', count (same x) (tournament_listeners t') = if Nat.eqb t' t then c else 0) ->
  count (same x) (setup_listeners lobby0) = 0 ->
  h < next w ->
  listening h w = setup_listeners lobby0 ->
  count (same x) (listening h (steps X ss w)) = adds h t ss * c.
Proof.
  intros Hreg Ht H0 Hlt Hl.
  apply steps_count; try assumption; rewrite Hl; [reflexivity|exact H0].
Qed.

Lemma count_players_onAdd t h lobby0 ss w :
  h < next w ->
  listening h w = setup_listeners lobby0 ->
  count (same (players_onAdd t)) (listening h (steps X ss w)) = adds h t ss.
Proof.
  intros Hlt Hl.
  rewrite (steps_count_tournament (players_onAdd t) t 1 h lobby0 ss w);
    try assumption; [apply Nat.mul_1_r|solve_registered| |reflexivity].
  intros t'. unfold tournament_listeners, count. simpl.
  destruct (Nat.eqb_spec t' t) as [->|Hn]; same_simpl; reflexivity.
Qed.

Lemma count_players_onRemove t h lobby0 ss w :
  h < next w ->
  listening h w = setup_listeners lobby0 ->
  count (same (players_onRemove t)) (listening h (steps X ss w)) = adds h t ss.
Proof.
  intros Hlt Hl.
  rewrite (steps_count_tournament (players_onRemove t) t 1 h lobby0 ss w);
    try assumption;
    [apply Nat.mul_1_r|solve_registered|solve_tournament_listeners|reflexivity].
Qed.

Lemma count_brackets_onAdd t h lobby0 ss w :
  h < next w ->
  listening h w = setup_listeners lobby0 ->
  count (same (brackets_onAdd t)) (listening h (steps X ss w)) = adds h t ss.
Proof.
  intros Hlt Hl.
  rewrite (steps_count_tournament (brackets_onAdd t) t 1 h lobby0 ss w);
    try assumption;
    [apply Nat.mul_1_r|solve_registered|solve_tournament_listeners|reflexivity].
Qed.

Lemma count_brackets_onRemove t h lobby0 ss w :
  h < next w ->
  listening h w = setup_listeners lobby0 ->
  count (same (brackets_onRemove t)) (listening h (steps X ss w)) = adds h t ss.
Proof.
  intros Hlt Hl.
  rewrite (steps_count_tournament (brackets_onRemove t) t 1 h lobby0 ss w);
    try assumption;
    [apply Nat.mul_1_r|solve_registered|solve_tournament_listeners|reflexivity].
Qed.

Lemma count_setup_kind x h lobby0 ss w :
  (forall l ev, filter (same x) (registered l ev) = []) ->
  h < next w ->
  listening h w = setup_listeners lobby0 ->
  count (same x) (listening h (steps X ss w)) = count (same x) (setup_listeners lobby0).
Proof.
  intros Hx Hlt Hl. unfold count. rewrite steps_keep by assumption.
  rewrite Hl. reflexivity.
Qed.

Lemma never_registered x :
  (forall t, ~ In x (tournament_listeners t)) ->
  (forall t p u f, x <> player_listen t p u f) ->
  (forall t b i f, x <> bracket_listen t b i f) ->
  (forall t b i, x <> bracket_playersId_onChange t b i) ->
  forall l ev, filter (same x) (registered l ev) = [].
Proof.
  intros Ht Hp Hb Hc l ev.
  destruct l, ev; try reflexivity; cbv [registered].
  - match goal with
    | |- context [tournament_listeners ?x0] => specialize (Ht x0)
    end.
    unfold tournament_listeners in *. simpl.
    rewrite !same_neq; [reflexivity|..]; intros E; apply Ht; rewrite E; simpl; auto 10.
  - destruct (Nat.eqb _ _); simpl; [|reflexivity]. rewrite same_neq by apply Hp.
    reflexivity.
  - destruct (Nat.eqb _ _); simpl; [|reflexivity].
    rewrite !same_neq by (apply Hb || apply Hc). reflexivity.
Qed.

(** The calls a delivery makes, when one kind of closure reacts to the
    event: the calls of that closure, once for every time it is
    registered on the room. *)
Lemma deliver_reacts te h ev w x pat :
  is_structural ev = true ->
  (forall l, reaction h l ev = if same x l then pat else []) ->
  new_events w (snd (deliver X te h ev w)) =
  List.concat (repeat pat (count (same x) (listening h w))).
Proof.
  intros Hs Hr. rewrite (deliver_structural X te h ev w Hs). simpl snd.
  apply new_events_app. unfold grow. cbv beta iota delta [trace]. f_equal.
  apply flat_map_repeat. exact Hr.
Qed.

Lemma deliver_registers_nothing te h ev w :
  (forall l, registered l ev = []) ->
  listeners (snd (deliver X te h ev w)) = listeners w.
Proof.
  intros Hr. destruct (is_structural ev) eqn:Hs.
  - rewrite (deliver_structural X te h ev w Hs). simpl snd. unfold grow.
    cbv beta iota delta [listeners].
    rewrite (flat_map_nil (fun l => registered l ev)) by exact Hr. apply app_nil_r.
  - apply deliver_quiet. exact Hs.
Qed.

(** C9: on a lobby room set up by [joinLobbyRoom], after any history of
    deliveries and of segments of other invocations: for every tournament
    added, the projector dispatches [addTournament], then attaches the
    listeners of [id], [name] and [startDate], then those of the players
    collection, then those of the brackets collection, once; for every
    player added to a tournament it dispatches the update and then
    attaches the listener of [eliminated], and for every bracket added it
    dispatches [addTournamentBracket] and then attaches the listeners of
    its fields: once for every time that tournament was added on the room
    (once, for a tournament added once; never, for one that was not). *)
Theorem tournament_add_order ss te h lobby0 w t player userId bracket bracketId :
  h < next w ->
  listening h w = setup_listeners lobby0 ->
  new_events (steps X ss w)
    (snd (deliver X te h (STournamentsAdd t) (steps X ss w))) =
    [EDispatch (addTournament t);
     EAttach h (tournament_listen t "id");
     EAttach h (tournament_listen t "name");
     EAttach h (tournament_listen t "startDate");
     EAttach h (players_onAdd t);
     EAttach h (players_onRemove t);
     EAttach h (brackets_onAdd t);
     EAttach h (brackets_onRemove t)] /\
  adds h t (ss ++ [SDeliver te h (STournamentsAdd t)]) = S (adds h t ss) /\
  new_events (steps X ss w)
    (snd (deliver X te h (SPlayersAdd t player userId) (steps X ss w))) =
    List.concat
      (repeat [EDispatch updateTournament;
               EAttach h (player_listen t player userId "eliminated")]
              (adds h t ss)) /\
  new_events (steps X ss w)
    (snd (deliver X te h (SBracketsAdd t bracket bracketId) (steps X ss w))) =
    List.concat
      (repeat [EDispatch (addTournamentBracket t bracketId bracket);
               EAttach h (bracket_listen t bracket bracketId "name");
               EAttach h (bracket_listen t bracket bracketId "finished");
               EAttach h (bracket_playersId_onChange t bracket bracketId)]
              (adds h t ss)).
Proof.
  intros Hlt Hl. split; [|split; [|split]].
  - rewrite (deliver_reacts te h _ _ tournaments_onAdd
               (EDispatch (addTournament t) :: map (EAttach h) (tournament_listeners t)))
      by (reflexivity || solve_reaction).
    rewrite (count_setup_kind tournaments_onAdd h lobby0 ss w); try assumption.
    + reflexivity.
    + apply never_registered; try discriminate.
      intros t0 Hin. simpl in Hin. intuition discriminate.
  - rewrite adds_snoc. simpl. rewrite !Nat.eqb_refl. simpl. lia.
  - rewrite (deliver_reacts te h _ _ (players_onAdd t)
               [EDispatch updateTournament;
                EAttach h (player_listen t player userId "eliminated")])
      by (reflexivity || solve_reaction).
    rewrite (count_players_onAdd t h lobby0 ss w Hlt Hl). reflexivity.
  - rewrite (deliver_reacts te h _ _ (brackets_onAdd t)
               [EDispatch (addTournamentBracket t bracketId bracket);
                EAttach h (bracket_listen t bracket bracketId "name");
                EAttach h (bracket_listen t bracket bracketId "finished");
                EAttach h (bracket_playersId_onChange t bracket bracketId)])
      by (reflexivity || solve_reaction).
    rewrite (count_brackets_onAdd t h lobby0 ss w Hlt Hl). reflexivity.
Qed.

End ProjectorHistory.

Section ProjectorHistoryFurther.

Variable X : Externals.

Lemma count_tournament_listen t field h lobby0 ss w :
  h < next w ->
  listening h w = setup_listeners lobby0 ->
  count (same (tournament_listen t field)) (listening h (steps X ss w)) =
  if existsb (String.eqb field) ["id"; "name"; "startDate"] then adds h t ss else 0.
Proof.
  intros Hlt Hl.
  rewrite (steps_count_tournament X (tournament_listen t field) t
             (if existsb (String.eqb field) ["id"; "name"; "startDate"] then 1 else 0)
             h lobby0 ss w); try assumption.
  - destruct (existsb _ _); lia.
  - solve_registered.
  - intros t'. unfold tournament_listeners, count. simpl.
    destruct (Nat.eqb_spec t' t) as [->|Hn];
      destruct (String.eqb_spec field "id") as [H1|H1];
      destruct (String.eqb_spec field "name") as [H2|H2];
      destruct (String.eqb_spec field "startDate") as [H3|H3];
      try (exfalso; congruence); subst; simpl; same_simpl; reflexivity.
  - reflexivity.
Qed.

(** X16: on a lobby room set up by [joinLobbyRoom], after any history, a
    change of the field [id], [name] or [startDate] of a tournament
    dispatches [changeTournament] for that tournament, field and value once
    for every time the tournament was added on the room, so nothing for a
    tournament that was not added (whatever other tournaments were); a
    change of any other field dispatches nothing. *)
Theorem tournament_field_changes_are_forwarded ss te h lobby0 w t field value :
  h < next w ->
  listening h w = setup_listeners lobby0 ->
  new_events (steps X ss w)
    (snd (deliver X te h (STournamentField t field value) (steps X ss w))) =
    List.concat
      (repeat [EDispatch (changeTournament t field value)]
              (if existsb (String.eqb field) ["id"; "name"; "startDate"]
               then adds h t ss else 0)).
Proof.
  intros Hlt Hl.
  rewrite (deliver_reacts X te h _ _ (tournament_listen t field)
             [EDispatch (changeTournament t field value)])
    by (reflexivity || solve_reaction).
  rewrite (count_tournament_listen t field h lobby0 ss w Hlt Hl). reflexivity.
Qed.

(** X18: on a lobby room set up by [joinLobbyRoom], after any history,
    the removal of a tournament dispatches [removeTournament] once; the
    removal of a player of a tournament dispatches [updateTournament], and
    the removal of a bracket [removeTournamentBracket] with the bracket
    id, once for every time the tournament was added on the room; none of
    them registers or takes away any listener, of any room. *)
Theorem removals_dispatch_once_and_keep_listeners
    ss te h lobby0 w t player userId bracket bracketId :
  h < next w ->
  listening h w = setup_listeners lobby0 ->
  (new_events (steps X ss w)
     (snd (deliver X te h (STournamentsRemove t) (steps X ss w))) =
     [EDispatch (removeTournament t)] /\
   listeners (snd (deliver X te h (STournamentsRemove t) (steps X ss w))) =
     listeners (steps X ss w)) /\
  (new_events (steps X ss w)
     (snd (deliver X te h (SPlayersRemove t player userId) (steps X ss w))) =
     List.concat (repeat [EDispatch updateTournament] (adds h t ss)) /\
   listeners (snd (deliver X te h (SPlayersRemove t player userId) (steps X ss w))) =
     listeners (steps X ss w)) /\
  (new_events (steps X ss w)
     (snd (deliver X te h (SBracketsRemove t bracket bracketId) (steps X ss w))) =
     List.concat (repeat [EDispatch (removeTournamentBracket t bracketId)] (adds h t ss)) /\
   listeners (snd (deliver X te h (SBracketsRemove t bracket bracketId) (steps X ss w))) =
     listeners (steps X ss w)).
Proof.
  intros Hlt Hl.
  repeat split;
    try (apply deliver_registers_nothing; intros l; destruct l; reflexivity).
  - rewrite (deliver_reacts X te h _ _ tournaments_onRemove
               [EDispatch (removeTournament t)])
      by (reflexivity || solve_reaction).
    rewrite (count_setup_kind X tournaments_onRemove h lobby0 ss w); try assumption.
    + reflexivity.
    + apply never_registered; try discriminate.
      intros t0 Hin. simpl in Hin. intuition discriminate.
  - rewrite (deliver_reacts X te h _ _ (players_onRemove t) [EDispatch updateTournament])
      by (reflexivity || solve_reaction).
    rewrite (count_players_onRemove X t h lobby0 ss w Hlt Hl). reflexivity.
  - rewrite (deliver_reacts X te h _ _ (brackets_onRemove t)
               [EDispatch (removeTournamentBracket t bracketId)])
      by (reflexivity || solve_reaction).
    rewrite (count_brackets_onRemove X t h lobby0 ss w Hlt Hl). reflexivity.
Qed.

Lemma quiet_for_player h player field s ls :
  is_player_add h player s = false ->
  filter (listens_to_player player field) (added h s ls) = [].
Proof.
  intros Hs. destruct s as [te h' ev|env pc]; simpl; [|reflexivity].
  destruct (Nat.eqb_spec h h') as [<-|Hn]; [|reflexivity].
  apply filter_flat_map_nil. intros l.
  destruct l, ev; try reflexivity; cbv [registered];
    match goal with
    | |- context [if ?b then _ else _] => destruct b; [|reflexivity]
    end; try reflexivity.
  simpl in Hs. rewrite Nat.eqb_refl in Hs. simpl in Hs.
  simpl. rewrite Hs. reflexivity.
Qed.

Lemma filter_repeat {A} (p : A -> bool) (x : A) (n : nat) :
  filter p (repeat x n) = if p x then repeat x n else [].
Proof.
  induction n as [|n IH]; simpl; [destruct (p x); reflexivity|].
  rewrite IH. destruct (p x); reflexivity.
Qed.

Lemma flat_map_repeat_one {A B} (f : A -> list B) (x : A) (n : nat) :
  flat_map f (repeat x n) = List.concat (repeat (f x) n).
Proof. induction n as [|n IH]; simpl; [reflexivity|rewrite IH; reflexivity]. Qed.

(** X17: on a lobby room set up by [joinLobbyRoom], after any history in
    which a player object was not yet added, a change of a field of that
    player dispatches nothing; once the player was added to a tournament
    with a user id, and whatever happened since but another add of that
    player object, a change of its [eliminated] field dispatches
    [changeTournamentPlayer] with that tournament, that user id and the
    new value, once for every time the tournament had been added on the
    room, and a change of any other field dispatches nothing. *)
Theorem player_field_changes_are_forwarded
    ss ss2 te te' h lobby0 w t player userId field value :
  h < next w ->
  listening h w = setup_listeners lobby0 ->
  count (is_player_add h player) ss = 0 ->
  count (is_player_add h player) ss2 = 0 ->
  new_events (steps X ss w)
    (snd (deliver X te' h (SPlayerField player field value) (steps X ss w))) = [] /\
  new_events (steps X (ss ++ SDeliver te h (SPlayersAdd t player userId) :: ss2) w)
    (snd (deliver X te' h (SPlayerField player field value)
            (steps X (ss ++ SDeliver te h (SPlayersAdd t player userId) :: ss2) w))) =
    List.concat
      (repeat [EDispatch (changeTournamentPlayer t userId field value)]
              (if String.eqb field "eliminated" then adds h t ss else 0)).
Proof.
  intros Hlt Hl Hss Hss2.
  assert (Hreact : forall w0,
            new_events w0 (snd (deliver X te' h (SPlayerField player field value) w0)) =
            flat_map (fun l => reaction h l (SPlayerField player field value))
                     (filter (listens_to_player player field) (listening h w0))).
  { intros w0. rewrite (deliver_structural X te' h (SPlayerField player field value) w0 eq_refl).
    simpl snd.
    apply new_events_app. unfold grow. cbv beta iota delta [trace]. f_equal.
    apply flat_map_filter. intros l Hq. destruct l; try reflexivity.
    cbv [reaction]. simpl in Hq. rewrite Hq. reflexivity. }
  assert (Hbefore : filter (listens_to_player player field) (listening h (steps X ss w)) = []).
  { rewrite (steps_keep_when X _ h ss w); [rewrite Hl; reflexivity| |exact Hlt].
    intros s Hin ls. apply quiet_for_player. exact (count_zero _ _ Hss s Hin). }
  split; [rewrite Hreact, Hbefore; reflexivity|].
  rewrite Hreact. change (SDeliver te h (SPlayersAdd t player userId) :: ss2)
    with ([SDeliver te h (SPlayersAdd t player userId)] ++ ss2).
  rewrite app_assoc, steps_app.
  rewrite (steps_keep_when X _ h ss2).
  - rewrite steps_snoc.
    destruct (step_listening X h (SDeliver te h (SPlayersAdd t player userId))
                (steps X ss w) (steps_next X h ss w Hlt)) as (E & _).
    rewrite E, filter_app, Hbefore. simpl app. cbv [added]. rewrite Nat.eqb_refl.
    rewrite (flat_map_repeat (same (players_onAdd t))
               (fun l => registered l (SPlayersAdd t player userId))
               [player_listen t player userId "eliminated"]).
    + rewrite (count_players_onAdd X t h lobby0 ss w Hlt Hl), concat_repeat_one.
      rewrite filter_repeat. cbv [listens_to_player]. rewrite Nat.eqb_refl, String.eqb_sym.
      simpl andb. destruct (String.eqb_spec field "eliminated") as [->|Hf].
      * rewrite flat_map_repeat_one. cbv [reaction].
        rewrite Nat.eqb_refl. reflexivity.
      * reflexivity.
    + intros l. destruct l; try reflexivity. cbv [registered].
      destruct (Nat.eqb_spec t0 t) as [->|Hn]; same_simpl; reflexivity.
  - intros s Hin ls. apply quiet_for_player. exact (count_zero _ _ Hss2 s Hin).
  - rewrite steps_snoc. apply step_listening. apply steps_next. exact Hlt.
Qed.

Lemma quiet_for_bracket h bracket s ls :
  is_bracket_add h bracket s = false ->
  filter (listens_to_bracket bracket) (added h s ls) = [].
Proof.
  intros Hs. destruct s as [te h' ev|env pc]; simpl; [|reflexivity].
  destruct (Nat.eqb_spec h h') as [<-|Hn]; [|reflexivity].
  apply filter_flat_map_nil. intros l.
  destruct l, ev; try reflexivity; cbv [registered];
    match goal with
    | |- context [if ?b then _ else _] => destruct b; [|reflexivity]
    end; try reflexivity.
  simpl in Hs. rewrite Nat.eqb_refl in Hs. simpl in Hs.
  simpl. rewrite Hs. reflexivity.
Qed.

Lemma flat_map_concat_repeat {A B} (f : A -> list B) (l : list A) (n : nat) :
  flat_map f (List.concat (repeat l n)) = List.concat (repeat (flat_map f l) n).
Proof.
  induction n as [|n IH]; simpl; [reflexivity|].
  rewrite flat_map_app, IH. reflexivity.
Qed.

Lemma filter_concat_repeat {A} (p : A -> bool) (l : list A) (n : nat) :
  filter p l = l -> filter p (List.concat (repeat l n)) = List.concat (repeat l n).
Proof.
  intros H. induction n as [|n IH]; simpl; [reflexivity|].
  rewrite filter_app, H, IH. reflexivity.
Qed.

(** X19: on a lobby room set up by [joinLobbyRoom], after any history in
    which a bracket object was not yet added, a change of that bracket
    dispatches nothing; once the bracket was added to a tournament with a
    bracket id, and whatever happened since but another add of that bracket
    object, a change of its [name] or [finished] field dispatches
    [changeTournamentBracket] with that tournament, that bracket id and
    the new value, a change of any other field dispatches nothing, and a
    change of its [playersId] collection dispatches the update carrying the
    collection: each once for every time the tournament had been added on
    the room. *)
Theorem bracket_changes_are_forwarded
    ss ss2 te te' h lobby0 w t bracket bracketId field value :
  h < next w ->
  listening h w = setup_listeners lobby0 ->
  count (is_bracket_add h bracket) ss = 0 ->
  count (is_bracket_add h bracket) ss2 = 0 ->
  new_events (steps X ss w)
    (snd (deliver X te' h (SBracketField bracket field value) (steps X ss w))) = [] /\
  new_events (steps X ss w)
    (snd (deliver X te' h (SBracketPlayersId bracket) (steps X ss w))) = [] /\
  new_events (steps X (ss ++ SDeliver te h (SBracketsAdd t bracket bracketId) :: ss2) w)
    (snd (deliver X te' h (SBracketField bracket field value)
            (steps X (ss ++ SDeliver te h (SBracketsAdd t bracket bracketId) :: ss2) w))) =
    List.concat
      (repeat [EDispatch (changeTournamentBracket t bracketId field value)]
              (if existsb (String.eqb field) ["name"; "finished"]
               then adds h t ss else 0)) /\
  new_events (steps X (ss ++ SDeliver te h (SBracketsAdd t bracket bracketId) :: ss2) w)
    (snd (deliver X te' h (SBracketPlayersId bracket)
            (steps X (ss ++ SDeliver te h (SBracketsAdd t bracket bracketId) :: ss2) w))) =
    List.concat
      (repeat [EDispatch (changeTournamentBracketPlayersId t bracketId bracket)]
              (adds h t ss)).
Proof.
  intros Hlt Hl Hss Hss2.
  assert (Hreact : forall ev w0,
            ev = SBracketField bracket field value \/ ev = SBracketPlayersId bracket ->
            new_events w0 (snd (deliver X te' h ev w0)) =
            flat_map (fun l => reaction h l ev)
                     (filter (listens_to_bracket bracket) (listening h w0))).
  { intros ev w0 Hev.
    rewrite (deliver_structural X te' h ev w0) by (destruct Hev; subst ev; reflexivity).
    simpl snd. apply new_events_app. unfold grow. cbv beta iota delta [trace]. f_equal.
    apply flat_map_filter. intros l Hq.
    destruct Hev; subst ev; destruct l; try reflexivity;
      cbv [reaction]; simpl in Hq; rewrite Hq; reflexivity. }
  assert (Hbefore : filter (listens_to_bracket bracket) (listening h (steps X ss w)) = []).
  { rewrite (steps_keep_when X _ h ss w); [rewrite Hl; reflexivity| |exact Hlt].
    intros s Hin ls. apply quiet_for_bracket. exact (count_zero _ _ Hss s Hin). }
  assert (Hafter :
            filter (listens_to_bracket bracket)
              (listening h
                 (steps X (ss ++ SDeliver te h (SBracketsAdd t bracket bracketId) :: ss2) w)) =
            List.concat
              (repeat [bracket_listen t bracket bracketId "name";
                       bracket_listen t bracket bracketId "finished";
                       bracket_playersId_onChange t bracket bracketId]
                      (adds h t ss))).
  { change (SDeliver te h (SBracketsAdd t bracket bracketId) :: ss2)
      with ([SDeliver te h (SBracketsAdd t bracket bracketId)] ++ ss2).
    rewrite app_assoc, steps_app.
    rewrite (steps_keep_when X _ h ss2).
    - rewrite steps_snoc.
      destruct (step_listening X h (SDeliver te h (SBracketsAdd t bracket bracketId))
                  (steps X ss w) (steps_next X h ss w Hlt)) as (E & _).
      rewrite E, filter_app, Hbefore. simpl app. cbv [added]. rewrite Nat.eqb_refl.
      rewrite (flat_map_repeat (same (brackets_onAdd t))
                 (fun l => registered l (SBracketsAdd t bracket bracketId))
                 [bracket_listen t bracket bracketId "name";
                  bracket_listen t bracket bracketId "finished";
                  bracket_playersId_onChange t bracket bracketId]).
      + rewrite (count_brackets_onAdd X t h lobby0 ss w Hlt Hl).
        apply filter_concat_repeat. simpl. rewrite Nat.eqb_refl. reflexivity.
      + intros l. destruct l; try reflexivity. cbv [registered].
        destruct (Nat.eqb_spec t0 t) as [->|Hn]; same_simpl; reflexivity.
    - intros s Hin ls. apply quiet_for_bracket. exact (count_zero _ _ Hss2 s Hin).
    - rewrite steps_snoc. apply step_listening. apply steps_next. exact Hlt. }
  rewrite !Hreact by auto. rewrite Hbefore, Hafter, !flat_map_concat_repeat.
  repeat split.
  - cbv [flat_map reaction]. rewrite Nat.eqb_refl. cbn [andb].
    rewrite (String.eqb_sym "name" field), (String.eqb_sym "finished" field).
    cbn [existsb].
    destruct (String.eqb_spec field "name") as [H1|H1];
      destruct (String.eqb_spec field "finished") as [H2|H2];
      try (exfalso; congruence); try subst field; cbn [orb app]; try reflexivity.
    apply concat_repeat_nil.
  - cbv [flat_map reaction]. rewrite Nat.eqb_refl. reflexivity.
Qed.

End ProjectorHistoryFurther.

(** ** The [REQUEST_ROOM] handler along the history of its room *)


Section RequestRoomHistory.

Variable X : Externals.




End RequestRoomHistory.

(** ** The rooms of two overlapping invocations *)

Lemma step_room env pc w :
  started pc = true ->
  (exists r, fst (connect_step env pc w) = PSettled (Resolved r) /\
             handle r = next w /\
             next (snd (connect_step env pc w)) = S (next w) /\
             lobby (snd (connect_step env pc w)) = Some r) \/
  (lobby (snd (connect_step env pc w)) = lobby w /\
   next (snd (connect_step env pc w)) = next w /\
   forall r, fst (connect_step env pc w) = PSettled (Resolved r) ->
             pc = PSettled (Resolved r)).
Proof.
  intros Hs. destruct pc; unfold connect_step; try discriminate.
  - right. destruct (authenticateUser_res env); simpl.
    + unfold suspend, emit. simpl.
      destruct (cred_lobby w) as [c|]; simpl;
        [destruct (truthy (cred_reconnectionToken c))|]; simpl;
        repeat split; intros r E; discriminate.
    + repeat split. intros r E. discriminate.
  - destruct (reconnect_res env reconnectToken).
    + left. rewrite settle_setup. eexists. repeat split.
    + right. unfold suspend, localStore_delete, set_cred, emit. simpl.
      repeat split. intros r E. discriminate.
  - right. destruct (getIdToken_res env); [|rewrite settle_throw];
      unfold suspend, emit; simpl; repeat split; intros r E; discriminate.
  - destruct (join_res env "lobby" idToken).
    + left. rewrite settle_setup. eexists. repeat split.
    + right. rewrite settle_throw. simpl. repeat split. intros r E. discriminate.
  - right. simpl. repeat split. intros r E. exact E.
  - right. simpl. repeat split. intros r E. discriminate.
Qed.

Lemma rooms_of_sym p q w : rooms_of p q w -> rooms_of q p w.
Proof.
  intros (H1 & H2 & H3). split; [exact H2|]. split; [exact H1|].
  intros r r' E1 E2 E. apply (H3 r' r E2 E1). symmetry. exact E.
Qed.

Lemma step_rooms_of env p q w :
  started p = true ->
  rooms_of p q w ->
  rooms_of (fst (connect_step env p w)) q (snd (connect_step env p w)).
Proof.
  intros Hs (H1 & H2 & H3). unfold rooms_of.
  destruct (step_room env p w Hs) as [(r & Ep & Hh & Hn & Hl)|(Hl & Hn & Hkeep)].
  - rewrite Ep, Hn, Hl. split; [|split].
    + intros r0 E. injection E as <-. split; [lia|left; reflexivity].
    + intros r0 E. destruct (H2 _ E) as (Hlt & _). split; [lia|].
      right. exists r. split; reflexivity.
    + intros r0 r' E E'. injection E as <-. destruct (H2 _ E') as (Hlt & _). lia.
  - rewrite Hn, Hl. split; [|split].
    + intros r E. apply (H1 r). apply Hkeep. exact E.
    + intros r E. destruct (H2 r E) as (Hlt & [E0|(r' & E1 & E2)]).
      * split; [exact Hlt|left; exact E0].
      * split; [exact Hlt|]. right. exists r'. split; [|exact E2].
        subst p. reflexivity.
    + intros r r' E E'. apply H3; [apply Hkeep; exact E|exact E'].
Qed.

Lemma step_started env pc w :
  started pc = true -> started (fst (connect_step env pc w)) = true.
Proof.
  intros Hs. destruct (step_attempts env pc w (or_introl Hs)) as (H & _). exact H.
Qed.

Lemma run_rooms_of e1 e2 sched s :
  started (first s) = true -> started (second s) = true ->
  rooms_of (first s) (second s) (world s) ->
  rooms_of (first (run e1 e2 sched s)) (second (run e1 e2 sched s))
           (world (run e1 e2 sched s)).
Proof.
  revert s. induction sched as [|who sched IH]; intros s H1 H2 Hr; [exact Hr|].
  simpl run. destruct who; unfold sys_step.
  - pose proof (step_rooms_of e1 _ _ _ H1 Hr) as Hr'.
    pose proof (step_started e1 (first s) (world s) H1) as H1'.
    destruct (connect_step e1 (first s) (world s)) as [pc w1].
    apply IH; assumption.
  - pose proof (step_rooms_of e2 _ _ _ H2 (rooms_of_sym _ _ _ Hr)) as Hr'.
    pose proof (step_started e2 (second s) (world s) H2) as H2'.
    destruct (connect_step e2 (second s) (world s)) as [pc w1].
    apply IH; try assumption. apply rooms_of_sym. exact Hr'.
Qed.

(** X8: when a second invocation is made while the first is pending and
    both resolve, under any schedule, they resolve with two different
    rooms, and the published lobby is one of the two. *)
Theorem overlapping_connects_leave_two_rooms e1 e2 w k sched r1 r2 :
  final (first (run e1 e2 (repeat First (S k)) (mkSys PStart PStart w))) = false ->
  first (run e1 e2 (repeat First (S k) ++ Second :: sched) (mkSys PStart PStart w))
    = PSettled (Resolved r1) ->
  second (run e1 e2 (repeat First (S k) ++ Second :: sched) (mkSys PStart PStart w))
    = PSettled (Resolved r2) ->
  handle r1 <> handle r2 /\
  (lobby (world (run e1 e2 (repeat First (S k) ++ Second :: sched)
                     (mkSys PStart PStart w))) = Some r1 \/
   lobby (world (run e1 e2 (repeat First (S k) ++ Second :: sched)
                     (mkSys PStart PStart w))) = Some r2).
Proof.
  intros Hpend Hr1 Hr2.
  rewrite !run_app in *. rewrite !run_first_only in *. simpl first in *.
  simpl second in *. simpl world in *.
  destruct (steps_pending_frame _ _ _ _ Hpend) as (Hl & Ho & _).
  assert (Hclosed : lobby_isOpen (lobby w) w = false).
  { destruct (lobby_isOpen (lobby w) w) eqn:E; [|reflexivity]. exfalso.
    destruct (lobby_isOpen_true w E) as (l & El & Eo).
    pose proof (connect_open e1 w l El Eo) as Hc. unfold connect in Hc.
    rewrite connect_steps_S in Hpend. rewrite connect_steps_S in Hc.
    unfold connect_step in Hpend. rewrite El, Eo in Hpend. simpl in Hpend.
    rewrite connect_steps_final in Hpend by reflexivity. discriminate. }
  destruct (steps_attempts (S k) e1 PStart w (or_intror Hclosed)) as (Hst & _).
  specialize (Hst ltac:(lia)).
  remember (connect_steps (S k) e1 PStart w) as r eqn:Er. destruct r as [pc1 w1].
  simpl in *.
  assert (Hstart : connect_step e2 PStart w1 =
                   (PAwaitAuth (lobby w), snd (emit EAuthenticateUser w1))).
  { rewrite connect_step_start; [rewrite Hl; reflexivity|].
    rewrite Hl. rewrite (lobby_isOpen_frame _ w w1 Ho). exact Hclosed. }
  unfold sys_step in *. simpl in *. rewrite Hstart in *. simpl in *.
  pose proof (run_rooms_of e1 e2 sched
                (mkSys pc1 (PAwaitAuth (lobby w))
                   (mkWorld (lobby w1) (cred_lobby w1) (cred_preparation w1) (open w1)
                            (next w1) (listeners w1) (trace w1 ++ [EAuthenticateUser]))))
    as Hrooms.
  simpl in Hrooms. destruct Hrooms as (H1 & H2 & H3); try assumption; try reflexivity.
  - split; [|split].
    + intros r0 E0. subst pc1. discriminate Hpend.
    + intros r0 E0. discriminate E0.
    + intros r0 r0' _ E0. discriminate E0.
  - split; [exact (H3 r1 r2 Hr1 Hr2)|].
    destruct (H1 r1 Hr1) as (_ & [E|(r' & E1 & E2)]); [left; exact E|].
    right. rewrite Hr2 in E1. injection E1 as <-. exact E2.
Qed.

(** ** Instances of the properties above on the sample inputs *)

Lemma reconnect_success_skips_join_witness :
  fst (connect env_reconnects world_with_credential) = PSettled (Resolved lobby1) /\
  firstn 4 (new_events world_with_credential
              (snd (connect env_reconnects world_with_credential))) =
    [EAuthenticateUser; EStoreGet RECONNECTION_LOBBY; EReconnect "abc";
     EDispatch (setConnectionStatus CONNECTED)].
Proof.
  destruct (reconnect_success_skips_join env_reconnects world_with_credential
              (mkCredential "abc" "lobby1") lobby_answer
              eq_refl eq_refl eq_refl eq_refl eq_refl) as (H1 & H2).
  split; [exact H1|]. rewrite H2. reflexivity.
Defined.

Lemma no_usable_token_joins_afresh_witness :
  exists rest,
    new_events world_empty_token (snd (connect env_ok world_empty_token)) =
      [EAuthenticateUser; EStoreGet RECONNECTION_LOBBY; EUserGetIdToken;
       EJoin "lobby" "id-token"] ++ rest /\
    count is_reconnect rest = 0.
Proof.
  destruct (no_usable_token_joins_afresh env_ok world_empty_token "id-token"
              eq_refl eq_refl eq_refl eq_refl) as (rest & H1 & H2 & _).
  exists rest. split; assumption.
Defined.

Lemma resolved_connect_publishes_last_witness :
  exists pre,
    new_events world_stale world_rejoined =
      pre ++
      [EDispatch (setConnectionStatus CONNECTED);
       EStoreSet RECONNECTION_LOBBY (mkCredential "abc" "lobby1") 300] ++
      map (EAttach 1) (setup_listeners (Some lobby1)) ++
      [EDispatch (joinLobby lobby2)].
Proof.
  destruct (resolved_connect_publishes_last env_ok world_stale lobby2 world_rejoined
              eq_refl) as (pre & H1 & _).
  - vm_compute. reflexivity.
  - exists pre. exact H1.
Defined.

Lemma stored_token_is_presented_next_witness :
  exists rest,
    new_events world_with_credential (snd (connect env_ok world_with_credential)) =
      [EAuthenticateUser; EStoreGet RECONNECTION_LOBBY; EReconnect "abc"] ++ rest.
Proof.
  apply (stored_token_is_presented_next env_ok env_ok empty_world lobby1 world_joined
           world_with_credential).
  - reflexivity.
  - vm_compute. reflexivity.
  - reflexivity.
  - reflexivity.
  - reflexivity.
  - reflexivity.
Defined.

Lemma pending_invocation_publishes_nothing_witness :
  lobby (snd (connect_steps 2 env_ok PStart empty_world)) = None /\
  listeners (snd (connect_steps 2 env_ok PStart empty_world)) = [].
Proof.
  destruct (pending_invocation_publishes_nothing 2 env_ok empty_world eq_refl)
    as (H1 & _ & H2 & _).
  split; assumption.
Defined.

Lemma overlapping_connects_leave_two_rooms_witness :
  handle lobby1 <> handle lobby2 /\
  (lobby (world (run env_ok env_ok alternate (mkSys PStart PStart empty_world))) =
     Some lobby1 \/
   lobby (world (run env_ok env_ok alternate (mkSys PStart PStart empty_world))) =
     Some lobby2).
Proof.
  exact (overlapping_connects_leave_two_rooms env_ok env_ok empty_world 0
           [First; Second; First; Second; First; Second] lobby1 lobby2
           eq_refl eq_refl eq_refl).
Defined.

Lemma transition_without_token_is_silent_witness :
  next (snd (joinExistingPreparationRoom sample_externals tenv_no_user "prep42"
               (Some lobby1) world_connected)) = 1 /\
  open (snd (joinExistingPreparationRoom sample_externals tenv_no_user "prep42"
               (Some lobby1) world_connected)) = [0].
Proof.
  destruct (transition_without_token_is_silent sample_externals tenv_no_user "prep42"
              (Some lobby1) world_connected) as (_ & _ & H1 & H2).
  - intros e E. discriminate E.
  - intros token E. discriminate E.
  - split; assumption.
Defined.

Lemma failed_join_is_classified_witness :
  exists last,
    new_events world_connected
      (snd (joinExistingPreparationRoom sample_externals tenv_banned "prep42"
              (Some lobby1) world_connected)) =
      [ECurrentUserGetIdToken; EDispatch resetPreparation;
       EJoinById "prep42" "id-token"; last] /\
    last = EDispatch (setErrorAlertMessage "errors.USER_BANNED").
Proof.
  destruct (failed_join_is_classified sample_externals tenv_banned "prep42"
              (Some lobby1) world_connected "id-token" banned
              eq_refl eq_refl eq_refl) as (last & H1 & H2 & _).
  exists last. split; [exact H1|].
  apply (H2 4002%Z "USER_BANNED"); [reflexivity|discriminate|reflexivity].
Defined.

Lemma other_messages_only_inform_witness :
  informs world_joined
    (snd (deliver sample_externals tenv_prep 0 (SMessage (MRemoveRoom "r1"))
            world_joined)).
Proof.
  refine (proj2 (other_messages_only_inform sample_externals tenv_prep 0
                   (MRemoveRoom "r1") world_joined _)).
  discriminate.
Defined.

Lemma rooms_message_adds_every_room_witness :
  new_events world_joined
    (snd (deliver sample_externals tenv_prep 0
            (SMessage (MRooms [mkRoomAvailable "r1" "preparation";
                               mkRoomAvailable "r2" "game"])) world_joined)) =
  [EDispatch (addRoom (mkRoomAvailable "r1" "preparation"));
   EDispatch (addRoom (mkRoomAvailable "r2" "game"))].
Proof.
  exact (rooms_message_adds_every_room sample_externals tenv_prep 0 None
           [mkRoomAvailable "r1" "preparation"; mkRoomAvailable "r2" "game"]
           world_joined eq_refl).
Defined.

Lemma add_room_message_is_filtered_witness :
  new_events world_joined
    (snd (deliver sample_externals tenv_prep 0
            (SMessage (MAddRoom (mkRoomAvailable "r1" "lobby"))) world_joined)) = [].
Proof.
  refine (proj2 (add_room_message_is_filtered sample_externals tenv_prep 0 None
                   (mkRoomAvailable "r1" "lobby") world_joined eq_refl) _ _);
    discriminate.
Defined.

Lemma tournament_add_order_witness :
  new_events (steps sample_externals [SDeliver tenv_prep 0 (STournamentsAdd 7)] world_joined)
    (snd (deliver sample_externals tenv_prep 0 (SPlayersAdd 7 3 "user3")
            (steps sample_externals [SDeliver tenv_prep 0 (STournamentsAdd 7)]
               world_joined))) =
  List.concat
    (repeat [EDispatch updateTournament;
             EAttach 0 (player_listen 7 3 "user3" "eliminated")]
            (adds 0 7 [SDeliver tenv_prep 0 (STournamentsAdd 7)])) /\
  adds 0 7 [SDeliver tenv_prep 0 (STournamentsAdd 7)] = 1.
Proof.
  destruct (tournament_add_order sample_externals
              [SDeliver tenv_prep 0 (STournamentsAdd 7)] tenv_prep 0 None
              world_joined 7 3 "user3" 5 "bracket5") as (_ & _ & H & _).
  - vm_compute. apply le_n.
  - vm_compute. reflexivity.
  - split; [exact H|reflexivity].
Defined.


Lemma rejected_connect_publishes_nothing_witness :
  fst (connect env_join_fails empty_world) = PSettled (Rejected network_down) /\
  exists pre,
    new_events empty_world (snd (connect env_join_fails empty_world)) =
      pre ++ surfaced network_down /\
    lobby (snd (connect env_join_fails empty_world)) = lobby empty_world.
Proof.
  destruct (rejected_connect_publishes_nothing env_join_fails empty_world network_down)
    as (H0 & pre & H1 & _ & _ & H2 & _).
  - reflexivity.
  - reflexivity.
  - intros tok a E. discriminate E.
  - right. exists "id-token". split; reflexivity.
  - split; [exact H0|]. exists pre. split; assumption.
Defined.

Lemma connect_again_returns_published_room_witness :
  lobby world_joined = Some lobby1 /\
  connect env_no_user world_joined = (PSettled (Resolved lobby1), world_joined).
Proof.
  destruct (connect_again_returns_published_room env_ok env_no_user
              (PAwaitJoin None "id-token")
              (snd (connect_steps 3 env_ok PStart empty_world)) lobby1 world_joined)
    as (H1 & H2).
  - reflexivity.
  - vm_compute. reflexivity.
  - split; [exact H1|]. apply H2; [exact H1|vm_compute; reflexivity].
Defined.

Lemma tournament_field_changes_are_forwarded_witness :
  new_events (steps sample_externals [SDeliver tenv_prep 0 (STournamentsAdd 7)] world_joined)
    (snd (deliver sample_externals tenv_prep 0 (STournamentField 7 "name" "Cup")
            (steps sample_externals [SDeliver tenv_prep 0 (STournamentsAdd 7)]
               world_joined))) =
  List.concat
    (repeat [EDispatch (changeTournament 7 "name" "Cup")]
            (if existsb (String.eqb "name") ["id"; "name"; "startDate"]
             then adds 0 7 [SDeliver tenv_prep 0 (STournamentsAdd 7)] else 0)).
Proof.
  apply (tournament_field_changes_are_forwarded sample_externals
           [SDeliver tenv_prep 0 (STournamentsAdd 7)] tenv_prep 0 None world_joined
           7 "name" "Cup").
  - vm_compute. apply le_n.
  - vm_compute. reflexivity.
Defined.

Lemma player_field_changes_are_forwarded_witness :
  new_events
    (steps sample_externals
       ([SDeliver tenv_prep 0 (STournamentsAdd 7)] ++
        SDeliver tenv_prep 0 (SPlayersAdd 7 3 "user3") :: []) world_joined)
    (snd (deliver sample_externals tenv_prep 0 (SPlayerField 3 "eliminated" "true")
            (steps sample_externals
               ([SDeliver tenv_prep 0 (STournamentsAdd 7)] ++
                SDeliver tenv_prep 0 (SPlayersAdd 7 3 "user3") :: []) world_joined))) =
  List.concat
    (repeat [EDispatch (changeTournamentPlayer 7 "user3" "eliminated" "true")]
            (if String.eqb "eliminated" "eliminated"
             then adds 0 7 [SDeliver tenv_prep 0 (STournamentsAdd 7)] else 0)).
Proof.
  apply (player_field_changes_are_forwarded sample_externals
           [SDeliver tenv_prep 0 (STournamentsAdd 7)] [] tenv_prep tenv_prep 0
           None world_joined 7 3 "user3" "eliminated" "true").
  - vm_compute. apply le_n.
  - vm_compute. reflexivity.
  - reflexivity.
  - reflexivity.
Defined.

Lemma bracket_changes_are_forwarded_witness :
  new_events
    (steps sample_externals
       ([SDeliver tenv_prep 0 (STournamentsAdd 7)] ++
        SDeliver tenv_prep 0 (SBracketsAdd 7 5 "bracket5") :: []) world_joined)
    (snd (deliver sample_externals tenv_prep 0 (SBracketPlayersId 5)
            (steps sample_externals
               ([SDeliver tenv_prep 0 (STournamentsAdd 7)] ++
                SDeliver tenv_prep 0 (SBracketsAdd 7 5 "bracket5") :: []) world_joined))) =
  List.concat
    (repeat [EDispatch (changeTournamentBracketPlayersId 7 "bracket5" 5)]
            (adds 0 7 [SDeliver tenv_prep 0 (STournamentsAdd 7)])).
Proof.
  apply (bracket_changes_are_forwarded sample_externals
           [SDeliver tenv_prep 0 (STournamentsAdd 7)] [] tenv_prep tenv_prep 0
           None world_joined 7 5 "bracket5" "finished" "true").
  - vm_compute. apply le_n.
  - vm_compute. reflexivity.
  - reflexivity.
  - reflexivity.
Defined.

Lemma removals_dispatch_once_and_keep_listeners_witness :
  new_events (steps sample_externals [SDeliver tenv_prep 0 (STournamentsAdd 7)] world_joined)
    (snd (deliver sample_externals tenv_prep 0 (SPlayersRemove 7 3 "user3")
            (steps sample_externals [SDeliver tenv_prep 0 (STournamentsAdd 7)]
               world_joined))) =
  List.concat
    (repeat [EDispatch updateTournament]
            (adds 0 7 [SDeliver tenv_prep 0 (STournamentsAdd 7)])).
Proof.
  apply (removals_dispatch_once_and_keep_listeners sample_externals
           [SDeliver tenv_prep 0 (STournamentsAdd 7)] tenv_prep 0 None
           world_joined 7 3 "user3" 5 "bracket5").
  - vm_compute. apply le_n.
  - vm_compute. reflexivity.
Defined.
